(** * micro-tests.h: a shallow embedding of the test runner

    The development follows [src/micro-tests.h] function by function.

    Target assumptions (the header relies on GCC/Clang attributes and ELF
    linker sections): LP64, i.e. [int] is 32 bits, [long], [size_t] and
    pointers are 64 bits, and plain [char] is signed.  Signed arithmetic is
    modelled with two's complement wrap-around.  The build modelled is the one
    of [src/test.c], which defines [MICRO_TESTS_MULTITHREADED].

    A test callback is a function from the world it can observe to the
    [int] it returns and the world it leaves.  A run is observed through
    its trace: which callbacks were invoked and what was written to which
    stream, in order.

    The concurrent runner is modelled by the interleavings of its workers'
    steps.  A step is what a worker does between two points where another
    worker can interfere with it through the shared cursor: the call of
    [_micro_tests_get_next_test], which holds the mutex from its first to
    its last access of the cursor, or the execution of the record just
    claimed.  A schedule lists the workers in the order they step.  The
    cursor is a global that is initialised once: the concurrent runner
    takes its value at entry and gives its value at return. *)

From Stdlib Require Import ZArith List String Ascii Lia Bool.
From Stdlib Require Import DecimalString HexadecimalString Sorted Permutation.
Import ListNotations.

Local Open Scope Z_scope.

(** ** Machine integers *)

Module CInt.

(** Two's complement reduction of a mathematical integer to [bits] bits. *)
Definition wrap (bits : Z) (x : Z) : Z :=
  (x + 2 ^ (bits - 1)) mod 2 ^ bits - 2 ^ (bits - 1).

Definition wrap_int (x : Z) : Z := wrap 32 x.
Definition wrap_long (x : Z) : Z := wrap 64 x.

(** Conversion of a signed value to [size_t] (unsigned, 64 bits). *)
Definition to_size_t (x : Z) : Z := x mod 2 ^ 64.

Definition LONG_MAX : Z := 2 ^ 63 - 1.
Definition LONG_MIN : Z := - 2 ^ 63.

Definition in_int (x : Z) : Prop := - 2 ^ 31 <= x < 2 ^ 31.
Definition in_long (x : Z) : Prop := - 2 ^ 63 <= x < 2 ^ 63.

End CInt.
Import CInt.

(** ** C strings *)

(** The terminator. *)
Definition NUL : ascii := Ascii.zero.

Definition is_nul (c : ascii) : bool := Ascii.eqb c NUL.

(** Value of a [char] promoted to [int] (signed [char]). *)
Definition char_val (c : ascii) : Z :=
  let n := Z.of_N (N_of_ascii c) in
  if n <? 128 then n else n - 256.

(** A pointer to characters is modelled by the bytes found from that
    address on; [cstr s] is the array a string literal or argument [s]
    occupies: its bytes and the terminator, and nothing after it. *)
Definition cstr (s : string) : list ascii := list_ascii_of_string s ++ [NUL].

(** The bytes of a string, which hold no terminator. *)
Definition no_nul (l : list ascii) : bool :=
  forallb (fun c => negb (is_nul c)) l.

Definition nul_free (l : list ascii) : Prop := no_nul l = true.

(** [_micro_tests_strcmp s1 s2]: every dereference of [s1] or [s2] reads
    the head of the buffer; a read outside the buffer has no result ([None]).
    Reads happen in the order of the C code, [&&] evaluating its right
    operand only when the left one holds. *)
Fixpoint _micro_tests_strcmp (s1 s2 : list ascii) : option Z :=
  match s2 with
  | [] => None
  | c2 :: s2' =>
      if is_nul c2 then
        (* the loop is not entered; the return expression reads s2, finds
           the terminator, then reads s1 *)
        match s1 with
        | [] => None
        | c1 :: _ => Some (if is_nul c1 then 0 else 1)
        end
      else
        match s1 with
        | [] => None
        | c1 :: s1' =>
            if is_nul c1 then
              (* the loop is left; in the return expression the byte at s2
                 is not the terminator, so s1 is not read again *)
              Some 1
            else if negb (Ascii.eqb c1 c2) then
              Some (if char_val c1 >? char_val c2 then 1 else -1)
            else _micro_tests_strcmp s1' s2'
        end
  end.

(** [_micro_tests_strcmp(a, b) == 0] and [... != 0] on two strings. *)
Definition strcmp_eq0 (a b : string) : bool :=
  match _micro_tests_strcmp (cstr a) (cstr b) with
  | Some r => r =? 0
  | None => false
  end.

Definition strcmp_ne0 (a b : string) : bool := negb (strcmp_eq0 a b).

(** ** Output *)

Inductive stream : Type := stdout | stderr.

(** What a run does that can be observed: the callback of slot [i] is
    invoked, or a text is written to a stream. *)
Inductive event : Type :=
| Call (i : nat)
| Print (s : stream) (text : string).

Definition nl : string := String (ascii_of_nat 10) EmptyString.

(** [%d], [%ld] and [%lu]. *)
Definition fmt_d (z : Z) : string :=
  DecimalString.NilZero.string_of_int (Z.to_int z).

(** [%p] as glibc prints it. *)
Definition fmt_p (a : Z) : string :=
  if a =? 0 then "(nil)"%string
  else ("0x" ++ HexadecimalString.NilZero.string_of_uint
                  (N.to_hex_uint (Z.to_N a)))%string.

Definition is_print (e : event) : bool :=
  match e with Print _ _ => true | Call _ => false end.

(** The texts written, in order, and the slots invoked, in order. *)
Definition prints (tr : list event) : list event := filter is_print tr.

Fixpoint calls (tr : list event) : list nat :=
  match tr with
  | [] => []
  | Call i :: tr' => i :: calls tr'
  | Print _ _ :: tr' => calls tr'
  end.

Definition on_stdout (e : event) : Prop :=
  match e with Print stdout _ => True | _ => False end.

(** ** The C library's [atoi] *)

Definition isspace (c : ascii) : bool :=
  let n := nat_of_ascii c in
  (Nat.eqb n 32 || (Nat.leb 9 n && Nat.leb n 13))%bool.

Definition isdigit (c : ascii) : bool :=
  let n := nat_of_ascii c in (Nat.leb 48 n && Nat.leb n 57)%bool.

Definition digit_val (c : ascii) : Z := Z.of_nat (nat_of_ascii c) - 48.

Fixpoint skip_spaces (s : string) : string :=
  match s with
  | String c s' => if isspace c then skip_spaces s' else s
  | EmptyString => s
  end.

(** Value of the longest prefix of decimal digits, [acc] being the value of
    the digits already consumed. *)
Fixpoint digits_value (s : string) (acc : Z) : Z :=
  match s with
  | String c s' => if isdigit c then digits_value s' (10 * acc + digit_val c) else acc
  | EmptyString => acc
  end.

Definition clamp_long (z : Z) : Z :=
  if z <? LONG_MIN then LONG_MIN else if z >? LONG_MAX then LONG_MAX else z.

(** [strtol(s, NULL, 10)]: white space is skipped, then an optional sign,
    then the longest run of digits is converted; no digits give 0; a value
    outside [long] is clamped (ISO C 7.22.1.4). *)
Definition strtol10 (s : string) : Z :=
  match skip_spaces s with
  | String "-" r => clamp_long (- digits_value r 0)
  | String "+" r => clamp_long (digits_value r 0)
  | r => clamp_long (digits_value r 0)
  end.

(** [atoi] belongs to the C library, not to the repository; ISO C 7.22.1.2
    defines it as [(int) strtol(s, NULL, 10)] (and leaves unrepresentable
    values undefined; the conversion of glibc is taken). *)
Definition atoi (s : string) : Z := wrap_int (strtol10 s).

(** ** Types *)

(** [sizeof(MicroTest)]: the struct is packed, a 32-bit marker, four
    pointers, a 32-bit line number and a function pointer. *)
Definition sizeof_MicroTest : Z := 4 + 8 + 8 + 8 + 8 + 4 + 8.

(** The marker the [TEST] macro stores. *)
Definition MARKER : Z := 0xDeadBeaf.

(** Settings for the framework ([MicroTests]); a [NULL] filter is [None]. *)
Record MicroTests : Type := {
  run_suite : option string;
  run_test : option string;
  run_multithreaded : bool;
  thread_number : Z;
  show_list : bool;
  print_banner : bool;
  print_help : bool;
  debug : bool;
  quiet : bool
}.

Definition set_run_suite (v : string) (m : MicroTests) : MicroTests :=
  {| run_suite := Some v; run_test := run_test m;
     run_multithreaded := run_multithreaded m;
     thread_number := thread_number m; show_list := show_list m;
     print_banner := print_banner m; print_help := print_help m;
     debug := debug m; quiet := quiet m |}.

Definition set_run_test (v : string) (m : MicroTests) : MicroTests :=
  {| run_suite := run_suite m; run_test := Some v;
     run_multithreaded := run_multithreaded m;
     thread_number := thread_number m; show_list := show_list m;
     print_banner := print_banner m; print_help := print_help m;
     debug := debug m; quiet := quiet m |}.

Definition set_run_multithreaded (v : bool) (m : MicroTests) : MicroTests :=
  {| run_suite := run_suite m; run_test := run_test m;
     run_multithreaded := v;
     thread_number := thread_number m; show_list := show_list m;
     print_banner := print_banner m; print_help := print_help m;
     debug := debug m; quiet := quiet m |}.

Definition set_thread_number (v : Z) (m : MicroTests) : MicroTests :=
  {| run_suite := run_suite m; run_test := run_test m;
     run_multithreaded := run_multithreaded m;
     thread_number := v; show_list := show_list m;
     print_banner := print_banner m; print_help := print_help m;
     debug := debug m; quiet := quiet m |}.

Definition set_show_list (v : bool) (m : MicroTests) : MicroTests :=
  {| run_suite := run_suite m; run_test := run_test m;
     run_multithreaded := run_multithreaded m;
     thread_number := thread_number m; show_list := v;
     print_banner := print_banner m; print_help := print_help m;
     debug := debug m; quiet := quiet m |}.

Definition set_print_banner (v : bool) (m : MicroTests) : MicroTests :=
  {| run_suite := run_suite m; run_test := run_test m;
     run_multithreaded := run_multithreaded m;
     thread_number := thread_number m; show_list := show_list m;
     print_banner := v; print_help := print_help m;
     debug := debug m; quiet := quiet m |}.

Definition set_print_help (v : bool) (m : MicroTests) : MicroTests :=
  {| run_suite := run_suite m; run_test := run_test m;
     run_multithreaded := run_multithreaded m;
     thread_number := thread_number m; show_list := show_list m;
     print_banner := print_banner m; print_help := v;
     debug := debug m; quiet := quiet m |}.

Definition set_debug (v : bool) (m : MicroTests) : MicroTests :=
  {| run_suite := run_suite m; run_test := run_test m;
     run_multithreaded := run_multithreaded m;
     thread_number := thread_number m; show_list := show_list m;
     print_banner := print_banner m; print_help := print_help m;
     debug := v; quiet := quiet m |}.

Definition set_quiet (v : bool) (m : MicroTests) : MicroTests :=
  {| run_suite := run_suite m; run_test := run_test m;
     run_multithreaded := run_multithreaded m;
     thread_number := thread_number m; show_list := show_list m;
     print_banner := print_banner m; print_help := print_help m;
     debug := debug m; quiet := v |}.

(** ** [micro_tests_parse_args] *)

(** The default values the parser starts from. *)
Definition default_settings : MicroTests :=
  {| run_suite := None; run_test := None;
     run_multithreaded := false; thread_number := 4;
     show_list := false; print_banner := true; print_help := false;
     debug := false; quiet := false |}.

(** The loop [for (i = 1; i < argc; ++i)], on the arguments from [argv[i]]
    on: [i + 1 >= argc] holds when no argument follows the current one, and
    [argv[++i]] takes the next argument and steps over it.  The result is
    the value returned, the settings as they stand, and what was printed. *)
Fixpoint parse_loop (args : list string) (m : MicroTests)
  : Z * MicroTests * list event :=
  match args with
  | [] => (0, m, [])
  | a :: rest =>
      if (strcmp_eq0 a "--help" || strcmp_eq0 a "-h")%bool then
        parse_loop rest (set_print_help true m)
      else if strcmp_eq0 a "--list" then
        parse_loop rest (set_show_list true m)
      else if strcmp_eq0 a "--suite" then
        match rest with
        | [] => (-1, m, [Print stderr ("Usage: --suite <suite-name>" ++ nl)])
        | v :: rest' => parse_loop rest' (set_run_suite v m)
        end
      else if strcmp_eq0 a "--test" then
        match rest with
        | [] => (-1, m, [Print stderr ("Usage: --test <test-name>" ++ nl)])
        | v :: rest' => parse_loop rest' (set_run_test v m)
        end
      else if strcmp_eq0 a "--no-banner" then
        parse_loop rest (set_print_banner false m)
      else if strcmp_eq0 a "--debug" then
        parse_loop rest (set_debug true m)
      else if strcmp_eq0 a "--quiet" then
        parse_loop rest (set_quiet true m)
      else if strcmp_eq0 a "--multithreaded" then
        parse_loop rest (set_run_multithreaded true m)
      else if strcmp_eq0 a "--threads" then
        match rest with
        | [] => (-1, m, [Print stderr ("Usage: --threads <n>" ++ nl)])
        | v :: rest' =>
            let m' := set_thread_number (atoi v) m in
            if thread_number m' <=? 0 then
              (-1, m',
               [Print stderr
                  ("Error: Thread number " ++ v
                   ++ " must be an integer and positive number")])
            else parse_loop rest' m'
        end
      else
        (-1, m,
         [Print stdout ("Unrecognized argument: " ++ a ++ nl);
          Print stdout ("Try --help or -h" ++ nl)])
  end.

(** [argv] is the argument vector, [argc] its length; [argv[0]] is not
    looked at. *)
Definition micro_tests_parse_args (argv : list string)
  : Z * MicroTests * list event :=
  parse_loop (tl argv) default_settings.

(** ** The catalog and the runners *)

Section Model.

(** Whatever the test callbacks can read and change. *)
Variable World : Type.

(** One record of the section [.micro_tests].  The callback takes no
    argument and returns an [int]; it may depend on and change the world. *)
Record MicroTest : Type := {
  marker : Z;
  test_suite : string;
  test_name : string;
  function_name : string;
  file_name : string;
  line_number : Z;
  function_pointer : World -> Z * World
}.

(** The section as the linker exports it: its two bounds, and the record
    read at [test[i]] when the memory from [__micro_tests_start] on is
    viewed as an array of [MicroTest]. *)
Record Catalog : Type := {
  __micro_tests_start : Z;
  __micro_tests_stop : Z;
  test : nat -> MicroTest
}.

(** [(__micro_tests_stop - __micro_tests_start) / sizeof(MicroTest)]: the
    pointer difference is converted to [size_t] for the division. *)
Definition count (c : Catalog) : Z :=
  to_size_t (__micro_tests_stop c - __micro_tests_start c) / sizeof_MicroTest.

(** [run_suite != NULL && strcmp(run_suite, test_suite) != 0], the
    condition of the first [continue], and the same for the test name. *)
Definition suite_differs (m : MicroTests) (t : MicroTest) : bool :=
  match run_suite m with
  | Some s => strcmp_ne0 s (test_suite t)
  | None => false
  end.

Definition test_differs (m : MicroTests) (t : MicroTest) : bool :=
  match run_test m with
  | Some s => strcmp_ne0 s (test_name t)
  | None => false
  end.

(** *** [_micro_tests_run] *)

(** The variables of the loop: the counter [out], the world the callbacks
    act on, and the events so far. *)
Record RunState : Type := {
  rs_out : Z;
  rs_world : World;
  rs_trace : list event
}.

(** The body of the loop at index [i]. *)
Definition run_body (m : MicroTests) (c : Catalog) (i : nat) (st : RunState)
  : RunState :=
  let current := test c i in
  if marker current =? MARKER then
    if suite_differs m current then st
    else if test_differs m current then st
    else
      let (ret, w') := function_pointer current (rs_world st) in
      let line :=
        if ret <? 0 then
          [Print stderr ("suite: " ++ test_suite current ++ ", test: "
                         ++ test_name current ++ " FAILED" ++ nl)]
        else if negb (quiet m) then
          [Print stdout ("suite: " ++ test_suite current ++ ", test: "
                         ++ test_name current ++ " OK" ++ nl)]
        else [] in
      {| rs_out := wrap_int (rs_out st + ret);
         rs_world := w';
         rs_trace := rs_trace st ++ Call i :: line |}
  else st.

(** [for (size_t i = ...; i < count; i++)] with [n] iterations left. *)
Fixpoint run_loop (m : MicroTests) (c : Catalog) (n : nat) (i : nat)
  (st : RunState) : RunState :=
  match n with
  | O => st
  | S n' => run_loop m c n' (S i) (run_body m c i st)
  end.

(** The text of the closing line of both runners. *)
Definition summary_line (failed : Z) (singular : bool) : string :=
  (nl ++ "Tests done: " ++ fmt_d failed ++ " "
      ++ (if singular then "test" else "tests") ++ " failed" ++ nl ++ nl)%string.

(** What a run leaves behind: the value returned, the events in order,
    and the world. *)
Record Outcome : Type := {
  status : Z;
  trace : list event;
  world : World
}.

Definition _micro_tests_run (m : MicroTests) (c : Catalog) (w : World)
  : Outcome :=
  let st := run_loop m c (Z.to_nat (count c)) 0
              {| rs_out := 0; rs_world := w; rs_trace := [] |} in
  let out := rs_out st in
  {| status := wrap_int (- out);
     trace := rs_trace st ++
              (if negb (quiet m) then
                 [Print stdout (summary_line (wrap_int (- out)) (out =? -1))]
               else []);
     world := rs_world st |}.

(** *** [micro_tests_show_list] *)

Definition list_body (m : MicroTests) (c : Catalog) (i : nat)
  (tr : list event) : list event :=
  let current := test c i in
  if marker current =? MARKER then
    if suite_differs m current then tr
    else if test_differs m current then tr
    else tr ++ [Print stdout ("suite: " ++ test_suite current ++ ", test: "
                              ++ test_name current ++ nl)]
  else tr.

Fixpoint list_loop (m : MicroTests) (c : Catalog) (n : nat) (i : nat)
  (tr : list event) : list event :=
  match n with
  | O => tr
  | S n' => list_loop m c n' (S i) (list_body m c i tr)
  end.

Definition micro_tests_show_list (m : MicroTests) (c : Catalog)
  : list event :=
  list_loop m c (Z.to_nat (count c)) 0 [].

(** *** Banner and help *)

Definition micro_tests_print_banner : list event :=
  [Print stdout nl;
   Print stdout ("micro-tests.h" ++ nl);
   Print stdout ("-------------" ++ nl);
   Print stdout nl;
   Print stdout ("Running tests..." ++ nl ++ nl)].

Definition micro_tests_print_help : list event :=
  [Print stdout ("micro-tests usage:" ++ nl);
   Print stdout nl;
   Print stdout ("  --help,-h             show help message" ++ nl);
   Print stdout ("  --list                list tests" ++ nl);
   Print stdout ("  --suite <suite-name>  run a specific suite" ++ nl);
   Print stdout ("  --test  <test-name>   run a specific test" ++ nl);
   Print stdout ("  --multithreaded       run tests on multiple threads" ++ nl);
   Print stdout ("  --threads <n>         specify the number n of threads (use with --multithreaded)" ++ nl);
   Print stdout ("  --no-banner           do not print the banner" ++ nl);
   Print stdout ("  --debug               additional debug prints" ++ nl);
   Print stdout ("  --quiet               do not print OK results" ++ nl)].

(** *** [_micro_tests_get_next_test] *)

(** The loop [for (int i = micro_tests_current; i < count; ++i)], run
    with the lock held.  [i] is an [int], converted to [size_t] for the
    comparison with [count]; [cur] is the value of [micro_tests_current].
    The result is the index of the record returned ([None] for [NULL])
    and the new value of [micro_tests_current]; the outer [None] means
    the fuel ran out before the loop ended, which does not happen with
    the fuel [_micro_tests_get_next_test] gives it.  Inside the loop [i] is
    not negative: a negative [int] converts to a [size_t] above any
    [count]. *)
Fixpoint next_loop (m : MicroTests) (c : Catalog) (fuel : nat) (i cur : Z)
  : option (option nat * Z) :=
  match fuel with
  | O => None
  | S fuel' =>
      if to_size_t i <? count c then
        let current := test c (Z.to_nat i) in
        if marker current =? MARKER then
          if suite_differs m current then
            next_loop m c fuel' (wrap_int (i + 1)) cur
          else if test_differs m current then
            next_loop m c fuel' (wrap_int (i + 1)) cur
          else Some (Some (Z.to_nat i), wrap_int (cur + 1))
        else next_loop m c fuel' (wrap_int (i + 1)) cur
      else Some (None, cur)
  end.

Definition _micro_tests_get_next_test (m : MicroTests) (c : Catalog)
  (cur : Z) : option (option nat * Z) :=
  next_loop m c (S (Z.to_nat (count c))) cur cur.

(** *** [_micro_tests_thread] *)

(** Where a worker stands: about to call [_micro_tests_get_next_test],
    holding the record of slot [i] it has been given, or returned. *)
Inductive pc : Type :=
| AtClaim
| AtExec (i : nat)
| Returned.

(** A worker: its place in [_micro_tests_thread] and its local [ret]. *)
Record Worker : Type := {
  w_pc : pc;
  w_ret : Z
}.

(** What the workers share: the cursor [micro_tests_current], the world
    the callbacks act on, the events so far; and the workers. *)
Record Shared : Type := {
  micro_tests_current : Z;
  sh_world : World;
  sh_trace : list event;
  workers : list Worker
}.

Fixpoint set_nth {A : Type} (k : nat) (x : A) (l : list A) : list A :=
  match l, k with
  | [], _ => []
  | _ :: l', O => x :: l'
  | y :: l', S k' => y :: set_nth k' x l'
  end.

(** The line a worker prints after a callback; [ret] is the worker's
    local variable, after the addition. *)
Definition thread_line (m : MicroTests) (t : MicroTest) (ret : Z)
  : list event :=
  if ret <? 0 then
    [Print stderr ("suite: " ++ test_suite t ++ " test: "
                   ++ test_name t ++ " FAILED" ++ nl)]
  else if negb (quiet m) then
    [Print stdout ("suite: " ++ test_suite t ++ ", test: "
                   ++ test_name t ++ " OK" ++ nl)]
  else [].

(** One step of worker [k]: either the call of
    [_micro_tests_get_next_test], atomic under the mutex, or the part of
    the loop body between two such calls.  [pthread_self()] is taken to
    be [k].  No step when there is no worker [k] or it has returned. *)
Definition thread_step (m : MicroTests) (c : Catalog) (k : nat)
  (st : Shared) : option Shared :=
  match nth_error (workers st) k with
  | None => None
  | Some wk =>
      match w_pc wk with
      | Returned => None
      | AtClaim =>
          match _micro_tests_get_next_test m c (micro_tests_current st) with
          | None => None
          | Some (found, cur') =>
              let wk' :=
                {| w_pc := match found with
                           | Some i => AtExec i
                           | None => Returned
                           end;
                   w_ret := w_ret wk |} in
              Some {| micro_tests_current := cur';
                      sh_world := sh_world st;
                      sh_trace := sh_trace st;
                      workers := set_nth k wk' (workers st) |}
          end
      | AtExec i =>
          let micro_test := test c i in
          if negb (marker micro_test =? MARKER) then
            Some {| micro_tests_current := micro_tests_current st;
                    sh_world := sh_world st;
                    sh_trace := sh_trace st;
                    workers :=
                      set_nth k {| w_pc := Returned; w_ret := -1 |}
                        (workers st) |}
          else
            let dbg :=
              if debug m then
                [Print stdout ("(thread " ++ fmt_d (Z.of_nat k) ++ ") ")]
              else [] in
            let (r, w') := function_pointer micro_test (sh_world st) in
            let ret := wrap_long (w_ret wk + r) in
            Some {| micro_tests_current := micro_tests_current st;
                    sh_world := w';
                    sh_trace := sh_trace st ++ dbg ++ Call i
                                  :: thread_line m micro_test ret;
                    workers :=
                      set_nth k {| w_pc := AtClaim; w_ret := ret |}
                        (workers st) |}
      end
  end.

(** A schedule is the order in which the workers take their steps. *)
Fixpoint run_schedule (m : MicroTests) (c : Catalog) (sched : list nat)
  (st : Shared) : option Shared :=
  match sched with
  | [] => Some st
  | k :: sched' =>
      match thread_step m c k st with
      | Some st' => run_schedule m c sched' st'
      | None => None
      end
  end.

Definition has_returned (wk : Worker) : bool :=
  match w_pc wk with Returned => true | _ => false end.

(** *** [_micro_tests_run_multithreaded] *)

(** The workers just created: [ret = 0], before the first claim. *)
Definition spawn (n : Z) : list Worker :=
  repeat {| w_pc := AtClaim; w_ret := 0 |} (Z.to_nat n).

(** The loop of [pthread_join]: [ret += (long)ret_tmp]. *)
Definition join_all (ws : list Worker) : Z :=
  fold_left (fun ret wk => wrap_long (ret + w_ret wk)) ws 0.

(** The state when the workers have been created and the banner line, if
    any, is out.  [cur] is the value the global [micro_tests_current] has
    when the runner is entered: 0, its initialiser, the first time in a
    process, and afterwards whatever the run before left, for nothing sets
    it back. *)
Definition start_state (m : MicroTests) (cur : Z) (w : World) : Shared :=
  {| micro_tests_current := cur;
     sh_world := w;
     sh_trace :=
       if print_banner m then
         [Print stdout ("Running multithreaded with "
                        ++ fmt_d (thread_number m) ++ " threads."
                        ++ nl ++ nl)]
       else [];
     workers := spawn (thread_number m) |}.

(** The runner entered with the cursor at [cur], under schedule [sched];
    every [pthread] call succeeds.  The result is what the runner returns
    and does, and the value it leaves in [micro_tests_current].  [None]
    when [sched] is not a complete run: it names a worker that cannot
    step, or stops before all workers have returned. *)
Definition _micro_tests_run_multithreaded (m : MicroTests) (c : Catalog)
  (cur : Z) (sched : list nat) (w : World) : option (Outcome * Z) :=
  match run_schedule m c sched (start_state m cur w) with
  | None => None
  | Some st =>
      if forallb has_returned (workers st) then
        let ret := join_all (workers st) in
        Some ({| status := wrap_int ret;
                 trace := sh_trace st ++
                          (if negb (quiet m) then
                             [Print stdout
                                (summary_line (wrap_long (- ret)) (ret =? -1))]
                           else []);
                 world := sh_world st |},
              micro_tests_current st)
      else None
  end.

(** *** [micro_tests_run] *)

Definition after (pre : list event) (o : Outcome) : Outcome :=
  {| status := status o; trace := pre ++ trace o; world := world o |}.

(** [cur] is the value of [micro_tests_current] at the call, and the
    second component of the result its value at the return; only the
    concurrent runner touches it. *)
Definition micro_tests_run (argv : list string) (c : Catalog)
  (cur : Z) (sched : list nat) (w : World) : option (Outcome * Z) :=
  let '(r, m, out) := micro_tests_parse_args argv in
  if r <? 0 then Some ({| status := 1; trace := out; world := w |}, cur)
  else if print_help m then
    Some ({| status := 0; trace := out ++ micro_tests_print_help;
             world := w |}, cur)
  else if show_list m then
    Some ({| status := 0; trace := out ++ micro_tests_show_list m c;
             world := w |}, cur)
  else
    let pre :=
      out
      ++ (if print_banner m then micro_tests_print_banner else [])
      ++ (if debug m then
            [Print stdout ("debug: __micro_tests_start="
                           ++ fmt_p (__micro_tests_start c)
                           ++ ", __micro_tests_stop="
                           ++ fmt_p (__micro_tests_stop c) ++ nl)]
          else []) in
    if (run_multithreaded m && (thread_number m >? 0))%bool then
      option_map (fun r => (after pre (fst r), snd r))
        (_micro_tests_run_multithreaded m c cur sched w)
    else Some (after pre (_micro_tests_run m c w), cur).

End Model.

Arguments marker {World} _.
Arguments test_suite {World} _.
Arguments test_name {World} _.
Arguments function_name {World} _.
Arguments file_name {World} _.
Arguments line_number {World} _.
Arguments function_pointer {World} _ _.
Arguments __micro_tests_start {World} _.
Arguments __micro_tests_stop {World} _.
Arguments test {World} _ _.
Arguments count {World} _.
Arguments suite_differs {World} _ _.
Arguments test_differs {World} _ _.
Arguments rs_out {World} _.
Arguments rs_world {World} _.
Arguments rs_trace {World} _.
Arguments run_body {World} _ _ _ _.
Arguments run_loop {World} _ _ _ _ _.
Arguments status {World} _.
Arguments trace {World} _.
Arguments world {World} _.
Arguments _micro_tests_run {World} _ _ _.
Arguments list_body {World} _ _ _ _.
Arguments list_loop {World} _ _ _ _ _.
Arguments micro_tests_show_list {World} _ _.
Arguments next_loop {World} _ _ _ _ _.
Arguments _micro_tests_get_next_test {World} _ _ _.
Arguments micro_tests_current {World} _.
Arguments sh_world {World} _.
Arguments sh_trace {World} _.
Arguments workers {World} _.
Arguments thread_line {World} _ _ _.
Arguments thread_step {World} _ _ _ _.
Arguments run_schedule {World} _ _ _ _.
Arguments start_state {World} _ _ _.
Arguments _micro_tests_run_multithreaded {World} _ _ _ _ _.
Arguments after {World} _ _.
Arguments micro_tests_run {World} _ _ _ _ _.

(** ** Concrete catalogs *)

(** A record as the [TEST] macro lays it down in [src/test.c], with a
    callback that returns [ret] and leaves the world alone. *)
Definition declared (suite name : string) (line : Z) (ret : Z)
  : MicroTest unit :=
  {| marker := MARKER;
     test_suite := suite;
     test_name := name;
     function_name := suite ++ "_" ++ name;
     file_name := "test.c";
     line_number := line;
     function_pointer := fun w => (ret, w) |}.

(** Bytes of the section that are no record: the marker is not there. *)
Definition padding : MicroTest unit :=
  {| marker := 0;
     test_suite := "";
     test_name := "";
     function_name := "";
     file_name := "";
     line_number := 0;
     function_pointer := fun w => (0, w) |}.

(** The section holding the records [l], placed at address [base]. *)
Definition catalog_of (base : Z) (l : list (MicroTest unit)) : Catalog unit :=
  {| __micro_tests_start := base;
     __micro_tests_stop := base + sizeof_MicroTest * Z.of_nat (List.length l);
     test := fun i => nth i l padding |}.

(** The three tests of [src/test.c]. *)
Definition test_c : Catalog unit :=
  catalog_of 0x4040
    [declared "base_tests" "simple_assertion" 7 0;
     declared "base_tests" "simple_assert_eq" 13 0;
     declared "base_tests2" "simple_assert_not_eq" 19 0].

(** The same with the test [src/test.c] keeps disabled, whose assertion
    fails. *)
Definition test_c_failing : Catalog unit :=
  catalog_of 0x4040
    [declared "base_tests" "simple_assertion" 7 0;
     declared "base_tests" "simple_assert_eq" 13 0;
     declared "base_tests2" "simple_assert_not_eq" 19 0;
     declared "base_tests2" "assert_should_fail" 26 (-1)].

(** ** Reference definitions the properties are stated with *)

(** Comparison of two strings given without their terminators: what
    [_micro_tests_strcmp] is to return. *)
Fixpoint compare_bytes (a b : list ascii) : Z :=
  match a, b with
  | [], [] => 0
  | [], _ :: _ => 1
  | _ :: _, [] => 1
  | x :: a', y :: b' =>
      if Ascii.eqb x y then compare_bytes a' b'
      else if char_val x >? char_val y then 1 else -1
  end.

(** The matching rule in the words of the specification: a record is real
    when its marker is the sentinel, and it matches when each filter is
    absent or compares equal to the name. *)
Definition name_passes (filter : option string) (name : string) : bool :=
  match filter with
  | None => true
  | Some f => strcmp_eq0 f name
  end.

Definition valid {World : Type} (t : MicroTest World) : bool :=
  marker t =? MARKER.

Definition selected {World : Type} (m : MicroTests) (t : MicroTest World)
  : bool :=
  (valid t
   && name_passes (run_suite m) (test_suite t)
   && name_passes (run_test m) (test_name t))%bool.

(** The indices [0 .. count - 1] of the catalog, and among them those of
    the valid matching records, in increasing order. *)
Definition indices {World : Type} (c : Catalog World) : list nat :=
  seq 0 (Z.to_nat (count c)).

Definition selected_indices {World : Type} (m : MicroTests)
  (c : Catalog World) : list nat :=
  filter (fun i => selected m (test c i)) (indices c).

(** The callbacks of the slots [l] invoked one after the other from world
    [w]: each slot with the value its callback returned, and the world
    left. *)
Fixpoint exec_in_order {World : Type} (c : Catalog World) (l : list nat)
  (w : World) : list (nat * Z) * World :=
  match l with
  | [] => ([], w)
  | i :: l' =>
      let (r, w1) := function_pointer (test c i) w in
      let (rs, w2) := exec_in_order c l' w1 in
      ((i, r) :: rs, w2)
  end.

(** The status line of the sequential runner for a test that returned [r]:
    a failure is always reported, a success unless quiet mode is set. *)
Definition outcome_line {World : Type} (m : MicroTests) (t : MicroTest World)
  (r : Z) : list event :=
  if r <? 0 then
    [Print stderr ("suite: " ++ test_suite t ++ ", test: " ++ test_name t
                   ++ " FAILED" ++ nl)]
  else if quiet m then []
  else
    [Print stdout ("suite: " ++ test_suite t ++ ", test: " ++ test_name t
                   ++ " OK" ++ nl)].

(** The counter after the returns [rs], each addition done on an [int]. *)
Definition add_returns (out : Z) (rs : list (nat * Z)) : Z :=
  fold_left (fun o ir => wrap_int (o + snd ir)) rs out.

(** The catalog [c] with the bytes of slot [i] replaced by the record [t]. *)
Definition with_slot {World : Type} (c : Catalog World) (i : nat)
  (t : MicroTest World) : Catalog World :=
  {| __micro_tests_start := __micro_tests_start c;
     __micro_tests_stop := __micro_tests_stop c;
     test := fun j => if Nat.eqb j i then t else test c j |}.

(** The line of listing mode for a record. *)
Definition list_line {World : Type} (t : MicroTest World) : event :=
  Print stdout ("suite: " ++ test_suite t ++ ", test: " ++ test_name t ++ nl).

(** Two views of the section that differ only where neither holds a valid
    record. *)
Definition same_records {World : Type} (c c' : Catalog World) : Prop :=
  __micro_tests_start c = __micro_tests_start c'
  /\ __micro_tests_stop c = __micro_tests_stop c'
  /\ forall j, test c j = test c' j
               \/ (valid (test c j) = false /\ valid (test c' j) = false).

(** A section where the linker left bytes that are no record between two
    tests, and a few more after the last one. *)
Definition test_c_padded : Catalog unit :=
  {| __micro_tests_start := 0x4040;
     __micro_tests_stop := 0x4040 + 3 * sizeof_MicroTest + 20;
     test := fun i =>
       nth i [declared "base_tests" "simple_assertion" 7 0;
              padding;
              declared "base_tests2" "simple_assert_not_eq" 19 0] padding |}.

(** An argument that is a positive integer, in the words of the
    specification: decimal digits and nothing else, denoting a number
    above zero. *)
Definition positive_integer_text (s : string) : bool :=
  (negb (String.eqb s "")
   && forallb isdigit (list_ascii_of_string s)
   && (0 <? digits_value s 0))%bool.

(** Two tests, one failing and one returning a positive value; and a
    single test returning a positive value. *)
Definition mixed_returns : Catalog unit :=
  catalog_of 0x4040
    [declared "s" "fails" 7 (-1);
     declared "s" "positive" 12 1].

Definition positive_return : Catalog unit :=
  catalog_of 0x4040 [declared "s" "positive" 7 1].

(** The number of tests among [rs] that failed. *)
Definition failures (rs : list (nat * Z)) : Z :=
  Z.of_nat (List.length (filter (fun ir => snd ir <? 0) rs)).

(** A failing test followed by a passing one. *)
Definition fail_then_pass : Catalog unit :=
  catalog_of 0x4040
    [declared "s" "fails" 7 (-1);
     declared "s" "passes" 12 0].

(** The settings of [--multithreaded --threads n]. *)
Definition multithreaded_settings (n : Z) : MicroTests :=
  set_thread_number n (set_run_multithreaded true default_settings).

(** The slots the claim function hands out when it is called again and
    again, from cursor [cur] on, at most [fuel] times. *)
Fixpoint claims_from {World : Type} (m : MicroTests) (c : Catalog World)
  (fuel : nat) (cur : Z) : list nat :=
  match fuel with
  | O => []
  | S fuel' =>
      match _micro_tests_get_next_test m c cur with
      | Some (Some i, cur') => i :: claims_from m c fuel' cur'
      | _ => []
      end
  end.

(** All of them from cursor [cur]: every claim moves the cursor by one and
    finds a slot at or after it, so there are at most [count - cur]. *)
Definition remaining {World : Type} (m : MicroTests) (c : Catalog World)
  (cur : Z) : list nat :=
  claims_from m c (Z.to_nat (count c - cur)) cur.

(** The slots workers hold and have not executed yet. *)
Definition pending (ws : list Worker) : list nat :=
  flat_map (fun wk => match w_pc wk with AtExec i => [i] | _ => [] end) ws.

Definition sum_ret (ws : list Worker) : Z :=
  fold_right (fun wk s => w_ret wk + s) 0 ws.

(** Callbacks whose return value does not depend on the world. *)
Definition deterministic {World : Type} (c : Catalog World) : Prop :=
  forall i w w',
    fst (function_pointer (test c i) w) = fst (function_pointer (test c i) w').

(** The sum of the values the callbacks of the slots [l] return. *)
Definition sum_returns {World : Type} (c : Catalog World) (w0 : World)
  (l : list nat) : Z :=
  fold_right (fun i s => fst (function_pointer (test c i) w0) + s) 0 l.

(** What holds of the shared state all along a concurrent run entered
    with the cursor at [cur0]. *)
Definition scheduler_inv {World : Type} (m : MicroTests) (c : Catalog World)
  (cur0 : Z) (st : Shared World) : Prop :=
  0 <= micro_tests_current st <= count c
  /\ (forall wk i, In wk (workers st) -> w_pc wk = AtExec i ->
                   selected m (test c i) = true)
  /\ ((exists wk, In wk (workers st) /\ w_pc wk = Returned) ->
      remaining m c (micro_tests_current st) = [])
  /\ Permutation
       (calls (sh_trace st) ++ pending (workers st)
        ++ remaining m c (micro_tests_current st))
       (remaining m c cur0).

(** A bound on the steps the workers can still take: three for every
    claim still to be made, and for each worker what it has to do before
    it claims again or is done. *)
Definition pc_weight (wk : Worker) : nat :=
  match w_pc wk with
  | AtClaim => 1
  | AtExec _ => 2
  | Returned => 0
  end.

Definition steps_left {World : Type} (m : MicroTests) (c : Catalog World)
  (st : Shared World) : nat :=
  3 * List.length (remaining m c (micro_tests_current st))
  + list_sum (map pc_weight (workers st)).



(** ** Further reference definitions *)

(** The first selected slot among the [n] slots from index [i] on. *)
Fixpoint first_selected {World : Type} (m : MicroTests) (c : Catalog World)
  (n : nat) (i : nat) : option nat :=
  match n with
  | O => None
  | S n' =>
      if selected m (test c i) then Some i
      else first_selected m c n' (S i)
  end.

(** The settings [m] with both filters taken away. *)
Definition without_filters (m : MicroTests) : MicroTests :=
  {| run_suite := None; run_test := None;
     run_multithreaded := run_multithreaded m;
     thread_number := thread_number m; show_list := show_list m;
     print_banner := print_banner m; print_help := print_help m;
     debug := debug m; quiet := quiet m |}.

(** The tests the parser makes on an argument, in its order: whether the
    argument is one of the options. *)
Definition recognized (a : string) : bool :=
  (strcmp_eq0 a "--help" || strcmp_eq0 a "-h"
   || strcmp_eq0 a "--list" || strcmp_eq0 a "--suite"
   || strcmp_eq0 a "--test" || strcmp_eq0 a "--no-banner"
   || strcmp_eq0 a "--debug" || strcmp_eq0 a "--quiet"
   || strcmp_eq0 a "--multithreaded" || strcmp_eq0 a "--threads")%bool.

(** An event that is not a text on the standard output. *)
Definition not_on_stdout (e : event) : bool :=
  match e with Print stdout _ => false | _ => true end.

(** No slot that is not selected lies before a selected one: the selected
    slots are the first slots of the section. *)
Definition gap_free {World : Type} (m : MicroTests) (c : Catalog World)
  : Prop :=
  forall i j : nat,
    (i < j)%nat -> Z.of_nat j < count c ->
    selected m (test c j) = true -> selected m (test c i) = true.

(** * Properties *)

(** ** Name comparison *)

Lemma is_nul_spec (c : ascii) : is_nul c = true <-> c = NUL.
Proof. unfold is_nul. apply Ascii.eqb_eq. Qed.

Lemma is_nul_NUL : is_nul NUL = true.
Proof. reflexivity. Qed.

Lemma nul_free_cons (x : ascii) (l : list ascii) :
  nul_free (x :: l) <-> is_nul x = false /\ nul_free l.
Proof.
  unfold nul_free, no_nul. simpl.
  now rewrite andb_true_iff, negb_true_iff.
Qed.

Lemma nul_free_app (l1 l2 : list ascii) :
  nul_free (l1 ++ l2) <-> nul_free l1 /\ nul_free l2.
Proof.
  unfold nul_free, no_nul. now rewrite forallb_app, andb_true_iff.
Qed.

(** On terminated buffers the comparison returns, reads nothing after
    either terminator, and computes [compare_bytes]. *)
Lemma strcmp_terminated (a : list ascii) :
  forall b j1 j2,
    nul_free a -> nul_free b ->
    _micro_tests_strcmp (a ++ NUL :: j1) (b ++ NUL :: j2)
    = Some (compare_bytes a b).
Proof.
  induction a as [| x a IH]; intros b j1 j2 Ha Hb.
  - destruct b as [| y b]; simpl.
    + reflexivity.
    + apply nul_free_cons in Hb as [Hy _]. now rewrite Hy.
  - apply nul_free_cons in Ha as [Hx Ha].
    destruct b as [| y b]; simpl.
    + now rewrite Hx.
    + apply nul_free_cons in Hb as [Hy Hb].
      rewrite Hy, Hx.
      destruct (Ascii.eqb x y) eqn:E; simpl; [| reflexivity].
      now apply IH.
Qed.

Lemma compare_bytes_eq (a : list ascii) :
  forall b, compare_bytes a b = 0 <-> a = b.
Proof.
  induction a as [| x a IH]; intros [| y b]; simpl;
    try (split; [discriminate | discriminate]).
  - tauto.
  - destruct (Ascii.eqb x y) eqn:E.
    + apply Ascii.eqb_eq in E. subst y. rewrite IH.
      split; [now intros -> | now intros [= ->]].
    + apply Ascii.eqb_neq in E.
      split.
      * destruct (char_val x >? char_val y); discriminate.
      * intros [= -> _]. now elim E.
Qed.

(** The comparison stops at the first byte that differs: what follows it in
    either buffer, terminated or not, is not read. *)
Lemma strcmp_first_mismatch (p : list ascii) :
  forall x y j1 j2,
    nul_free p -> is_nul x = false -> is_nul y = false -> x <> y ->
    _micro_tests_strcmp (p ++ x :: j1) (p ++ y :: j2)
    = Some (if char_val x >? char_val y then 1 else -1).
Proof.
  induction p as [| z p IH]; intros x y j1 j2 Hp Hx Hy Hxy; simpl.
  - rewrite Hy, Hx.
    apply Ascii.eqb_neq in Hxy. now rewrite Hxy.
  - apply nul_free_cons in Hp as [Hz Hp].
    rewrite Hz, Ascii.eqb_refl. simpl. now apply IH.
Qed.

Lemma list_ascii_of_string_inj (a b : string) :
  list_ascii_of_string a = list_ascii_of_string b -> a = b.
Proof.
  intros H.
  rewrite <- (string_of_list_ascii_of_string a),
          <- (string_of_list_ascii_of_string b).
  now rewrite H.
Qed.

(** On strings (which hold no terminator inside) the test [== 0] decides
    equality. *)
Lemma strcmp_eq0_iff (a b : string) :
  nul_free (list_ascii_of_string a) -> nul_free (list_ascii_of_string b) ->
  strcmp_eq0 a b = true <-> a = b.
Proof.
  intros Ha Hb. unfold strcmp_eq0, cstr.
  rewrite strcmp_terminated by assumption.
  rewrite Z.eqb_eq, compare_bytes_eq.
  split; [apply list_ascii_of_string_inj | now intros ->].
Qed.

(** A filter passes a name exactly when the two are the same string. *)
Lemma name_passes_iff (f name : string) :
  nul_free (list_ascii_of_string f) -> nul_free (list_ascii_of_string name) ->
  name_passes (Some f) name = true <-> f = name.
Proof. apply strcmp_eq0_iff. Qed.

(** C6. [_micro_tests_strcmp] returns 0 exactly on two strings of the same
    length and the same bytes; it reads nothing after either terminator
    (on buffers that end with their terminator every read is inside, and
    bytes that follow the terminators do not change the result); it stops
    at the first byte that differs (the buffers cut right after that byte
    give the result already); and the filter [base] differs from the suite
    name [base_tests]. *)
Theorem strcmp_exact_match (a b : list ascii)
  (Ha : nul_free a) (Hb : nul_free b) :
  (exists r,
      _micro_tests_strcmp (a ++ [NUL]) (b ++ [NUL]) = Some r
      /\ (r = 0 <-> List.length a = List.length b /\ a = b))
  /\ (forall j1 j2,
         _micro_tests_strcmp (a ++ NUL :: j1) (b ++ NUL :: j2)
         = _micro_tests_strcmp (a ++ [NUL]) (b ++ [NUL]))
  /\ (forall p x y t1 t2 j1 j2,
         a = p ++ x :: t1 -> b = p ++ y :: t2 -> x <> y ->
         _micro_tests_strcmp (p ++ x :: j1) (p ++ y :: j2)
         = _micro_tests_strcmp (a ++ [NUL]) (b ++ [NUL])
         /\ _micro_tests_strcmp (p ++ x :: j1) (p ++ y :: j2) <> Some 0)
  /\ strcmp_eq0 "base" "base_tests" = false
  /\ (forall (World : Type) (m : MicroTests) (t : MicroTest World),
         run_suite m = Some "base"%string ->
         test_suite t = "base_tests"%string ->
         suite_differs m t = true).
Proof.
  split; [| split; [| split; [| split]]].
  - exists (compare_bytes a b). split.
    + now apply strcmp_terminated.
    + rewrite compare_bytes_eq. split; [now intros -> | tauto].
  - intros j1 j2. now rewrite !strcmp_terminated.
  - intros p x y t1 t2 j1 j2 Ea Eb Hxy.
    subst a b.
    apply nul_free_app in Ha as [Hp Hx].
    apply nul_free_cons in Hx as [Hx _].
    apply nul_free_app in Hb as [_ Hy].
    apply nul_free_cons in Hy as [Hy _].
    rewrite <- !app_assoc. simpl.
    rewrite !strcmp_first_mismatch by assumption.
    split; [reflexivity |].
    destruct (char_val x >? char_val y); discriminate.
  - reflexivity.
  - intros World m t Hm Ht. unfold suite_differs. now rewrite Hm, Ht.
Qed.

Lemma strcmp_exact_match_witness :
  nul_free (list_ascii_of_string "base")
  /\ nul_free (list_ascii_of_string "base_tests")
  /\ exists r,
      _micro_tests_strcmp (cstr "base") (cstr "base_tests") = Some r
      /\ (r = 0 <->
          List.length (list_ascii_of_string "base")
          = List.length (list_ascii_of_string "base_tests")
          /\ list_ascii_of_string "base" = list_ascii_of_string "base_tests").
Proof.
  split; [reflexivity | split; [reflexivity |]].
  apply (strcmp_exact_match (list_ascii_of_string "base")
           (list_ascii_of_string "base_tests"));
    reflexivity.
Defined.

(** ** The sequential runner *)

Section Sequential.

Context {World : Type}.
Variable m : MicroTests.
Variable c : Catalog World.

Lemma suite_differs_passes (t : MicroTest World) :
  suite_differs m t = negb (name_passes (run_suite m) (test_suite t)).
Proof.
  unfold suite_differs, name_passes, strcmp_ne0.
  now destruct (run_suite m).
Qed.

Lemma test_differs_passes (t : MicroTest World) :
  test_differs m t = negb (name_passes (run_test m) (test_name t)).
Proof.
  unfold test_differs, name_passes, strcmp_ne0.
  now destruct (run_test m).
Qed.

Lemma selected_valid (t : MicroTest World) :
  selected m t = true -> marker t = MARKER.
Proof.
  unfold selected, valid. rewrite !andb_true_iff, Z.eqb_eq. tauto.
Qed.

(** The body of the loop leaves the state alone at a slot that is not
    selected, and invokes the callback at one that is. *)
Lemma run_body_skip (i : nat) (st : RunState World) :
  selected m (test c i) = false -> run_body m c i st = st.
Proof.
  unfold selected, valid, run_body. intros H.
  rewrite suite_differs_passes, test_differs_passes.
  destruct (marker (test c i) =? MARKER); [| reflexivity].
  destruct (name_passes (run_suite m) _); [| reflexivity].
  destruct (name_passes (run_test m) _); [discriminate | reflexivity].
Qed.

Lemma run_body_exec (i : nat) (st : RunState World) :
  selected m (test c i) = true ->
  run_body m c i st =
  let (r, w') := function_pointer (test c i) (rs_world st) in
  {| rs_out := wrap_int (rs_out st + r);
     rs_world := w';
     rs_trace := rs_trace st ++ Call i :: outcome_line m (test c i) r |}.
Proof.
  unfold selected, valid, run_body, outcome_line. intros H.
  rewrite suite_differs_passes, test_differs_passes.
  apply andb_true_iff in H as [H H3]. apply andb_true_iff in H as [H1 H2].
  rewrite H1, H2, H3. simpl.
  destruct (function_pointer (test c i) (rs_world st)) as [r w'].
  destruct (r <? 0); [reflexivity |].
  now destruct (quiet m).
Qed.

(** The loop from index [i], [n] iterations: the selected slots among
    [i .. i + n - 1] are executed in increasing order. *)
Lemma run_loop_spec (n : nat) :
  forall (i : nat) (st : RunState World),
    run_loop m c n i st =
    let (rs, w') :=
      exec_in_order c (filter (fun j => selected m (test c j)) (seq i n))
        (rs_world st) in
    {| rs_out := add_returns (rs_out st) rs;
       rs_world := w';
       rs_trace :=
         rs_trace st
         ++ flat_map (fun ir => Call (fst ir)
                                  :: outcome_line m (test c (fst ir)) (snd ir))
              rs |}.
Proof.
  induction n as [| n IH]; intros i st; simpl.
  - rewrite app_nil_r. now destruct st.
  - rewrite IH.
    destruct (selected m (test c i)) eqn:Hsel.
    + rewrite run_body_exec by assumption. simpl.
      destruct (function_pointer (test c i) (rs_world st)) as [r w1].
      simpl.
      destruct (exec_in_order c _ w1) as [rs w2]. simpl.
      now rewrite <- app_assoc.
    + now rewrite run_body_skip by assumption.
Qed.

Lemma exec_in_order_slots (l : list nat) :
  forall w, map fst (fst (exec_in_order c l w)) = l.
Proof.
  induction l as [| i l IH]; intros w; simpl; [reflexivity |].
  destruct (function_pointer (test c i) w) as [r w1].
  specialize (IH w1).
  destruct (exec_in_order c l w1) as [rs w2]. simpl in *.
  now rewrite IH.
Qed.

Lemma calls_app (t1 t2 : list event) : calls (t1 ++ t2) = calls t1 ++ calls t2.
Proof.
  induction t1 as [| [i | s x] t1 IH]; simpl; now rewrite ?IH.
Qed.

Lemma calls_outcome_line (t : MicroTest World) (r : Z) :
  calls (outcome_line m t r) = [].
Proof.
  unfold outcome_line. destruct (r <? 0); [reflexivity |].
  now destruct (quiet m).
Qed.

Lemma calls_flat_map_lines (rs : list (nat * Z)) :
  calls (flat_map (fun ir => Call (fst ir)
                               :: outcome_line m (test c (fst ir)) (snd ir)) rs)
  = map fst rs.
Proof.
  induction rs as [| [i r] rs IH]; simpl; [reflexivity |].
  now rewrite calls_app, calls_outcome_line, IH.
Qed.




(** The whole run, in terms of the selected slots executed in order. *)
Lemma micro_tests_run_spec (w : World) :
  _micro_tests_run m c w =
  let (rs, w') := exec_in_order c (selected_indices m c) w in
  let out := add_returns 0 rs in
  {| status := wrap_int (- out);
     trace :=
       flat_map (fun ir => Call (fst ir)
                             :: outcome_line m (test c (fst ir)) (snd ir)) rs
       ++ (if negb (quiet m) then
             [Print stdout (summary_line (wrap_int (- out)) (out =? -1))]
           else []);
     world := w' |}.
Proof.
  unfold _micro_tests_run. rewrite run_loop_spec. simpl.
  unfold selected_indices, indices.
  now destruct (exec_in_order c _ w) as [rs w'].
Qed.

End Sequential.

Lemma filter_seq_sorted (f : nat -> bool) (n : nat) :
  forall a, StronglySorted lt (filter f (seq a n)).
Proof.
  induction n as [| n IH]; intros a; simpl; [constructor |].
  destruct (f a); [| apply IH].
  constructor; [apply IH |].
  apply Forall_forall. intros x Hx.
  apply filter_In in Hx as [Hx _]. apply in_seq in Hx. lia.
Qed.

Lemma micro_tests_run_calls {World : Type} (m : MicroTests)
  (c : Catalog World) (w : World) :
  calls (trace (_micro_tests_run m c w)) = selected_indices m c.
Proof.
  rewrite micro_tests_run_spec.
  pose proof (exec_in_order_slots c (selected_indices m c) w) as Hs.
  destruct (exec_in_order c (selected_indices m c) w) as [rs w']. simpl in *.
  rewrite calls_app, calls_flat_map_lines, Hs.
  destruct (quiet m); simpl; now rewrite app_nil_r.
Qed.

(** C8. The sequential runner invokes the callbacks of exactly the valid
    matching slots among the indices [0 .. count - 1], each once, in
    increasing index order, every callback starting from the world the one
    before it left; [count] is the size of the section divided by the size
    of a record. *)
Theorem sequential_runs_selected_once_in_order {World : Type}
  (m : MicroTests) (c : Catalog World) (w : World) :
  let o := _micro_tests_run m c w in
  calls (trace o)
  = filter (fun i => selected m (test c i)) (seq 0 (Z.to_nat (count c)))
  /\ count c
     = to_size_t (__micro_tests_stop c - __micro_tests_start c)
       / sizeof_MicroTest
  /\ (forall i : nat,
         count_occ Nat.eq_dec (calls (trace o)) i
         = if ((Z.of_nat i <? count c) && selected m (test c i))%bool
           then 1%nat else 0%nat)
  /\ StronglySorted lt (calls (trace o))
  /\ world o = snd (exec_in_order c (selected_indices m c) w).
Proof.
  intros o.
  assert (Hcalls : calls (trace o) = selected_indices m c)
    by apply micro_tests_run_calls.
  split; [exact Hcalls |].
  split; [reflexivity |].
  split; [| split].
  - intros i. rewrite Hcalls. unfold selected_indices, indices.
    destruct ((Z.of_nat i <? count c) && selected m (test c i))%bool eqn:E.
    + apply andb_true_iff in E as [Hi Hsel]. apply Z.ltb_lt in Hi.
      apply NoDup_count_occ'.
      * apply NoDup_filter, seq_NoDup.
      * apply filter_In. split; [apply in_seq; lia | exact Hsel].
    + apply count_occ_not_In. intros Hin.
      apply filter_In in Hin as [Hin Hsel]. apply in_seq in Hin.
      rewrite Hsel, andb_true_r in E. apply Z.ltb_ge in E. lia.
  - rewrite Hcalls. apply filter_seq_sorted.
  - subst o. rewrite micro_tests_run_spec.
    now destruct (exec_in_order c (selected_indices m c) w).
Qed.

(** ** Listing mode and the claim function *)

Section Scanning.

Context {World : Type}.
Variable m : MicroTests.
Variable c : Catalog World.

Lemma list_body_spec (i : nat) (tr : list event) :
  list_body m c i tr =
  if selected m (test c i) then tr ++ [list_line (test c i)] else tr.
Proof.
  unfold list_body, selected, valid, list_line.
  rewrite suite_differs_passes, test_differs_passes.
  destruct (marker (test c i) =? MARKER); [| reflexivity].
  destruct (name_passes (run_suite m) _); [| reflexivity].
  now destruct (name_passes (run_test m) _).
Qed.

Lemma list_loop_spec (n : nat) :
  forall (i : nat) (tr : list event),
    list_loop m c n i tr =
    tr ++ map (fun j => list_line (test c j))
            (filter (fun j => selected m (test c j)) (seq i n)).
Proof.
  induction n as [| n IH]; intros i tr; simpl.
  - now rewrite app_nil_r.
  - rewrite IH, list_body_spec.
    destruct (selected m (test c i)); [| reflexivity].
    simpl. now rewrite <- app_assoc.
Qed.

Lemma micro_tests_show_list_spec :
  micro_tests_show_list m c
  = map (fun j => list_line (test c j)) (selected_indices m c).
Proof.
  unfold micro_tests_show_list. now rewrite list_loop_spec.
Qed.

(** One iteration of the loop of the claim function. *)
Lemma next_loop_step (fuel : nat) (i cur : Z) :
  next_loop m c (S fuel) i cur =
  if to_size_t i <? count c then
    if selected m (test c (Z.to_nat i)) then
      Some (Some (Z.to_nat i), wrap_int (cur + 1))
    else next_loop m c fuel (wrap_int (i + 1)) cur
  else Some (None, cur).
Proof.
  simpl. unfold selected, valid.
  rewrite suite_differs_passes, test_differs_passes.
  destruct (to_size_t i <? count c); [| reflexivity].
  destruct (marker (test c (Z.to_nat i)) =? MARKER); [| reflexivity].
  destruct (name_passes (run_suite m) _); [| reflexivity].
  now destruct (name_passes (run_test m) _).
Qed.

(** What the claim function returns is a selected slot, and the cursor
    has then been incremented by one, wherever the slot was found. *)
Lemma next_loop_found (fuel : nat) :
  forall (i cur : Z) (j : nat) (cur' : Z),
    next_loop m c fuel i cur = Some (Some j, cur') ->
    selected m (test c j) = true /\ cur' = wrap_int (cur + 1).
Proof.
  induction fuel as [| fuel IH]; intros i cur j cur' H; [discriminate |].
  rewrite next_loop_step in H.
  destruct (to_size_t i <? count c); [| discriminate].
  destruct (selected m (test c (Z.to_nat i))) eqn:Hsel.
  - injection H as <- <-. now split.
  - now apply IH in H.
Qed.

Lemma next_loop_none (fuel : nat) :
  forall (i cur cur' : Z),
    next_loop m c fuel i cur = Some (None, cur') -> cur' = cur.
Proof.
  induction fuel as [| fuel IH]; intros i cur cur' H; [discriminate |].
  rewrite next_loop_step in H.
  destruct (to_size_t i <? count c); [| now injection H].
  destruct (selected m (test c (Z.to_nat i))); [discriminate |].
  now apply IH in H.
Qed.

End Scanning.

Section SameRecords.

Context {World : Type}.
Variable m : MicroTests.
Variables c c' : Catalog World.
Hypothesis Hsame : same_records c c'.

Lemma same_records_count : count c = count c'.
Proof.
  destruct Hsame as (Hs & He & _). unfold count. now rewrite Hs, He.
Qed.

Lemma same_records_run_body (i : nat) (st : RunState World) :
  run_body m c i st = run_body m c' i st.
Proof.
  destruct Hsame as (_ & _ & H). unfold run_body.
  destruct (H i) as [E | [E1 E2]]; [now rewrite E |].
  unfold valid in E1, E2. now rewrite E1, E2.
Qed.

Lemma same_records_run_loop (n : nat) :
  forall i st, run_loop m c n i st = run_loop m c' n i st.
Proof.
  induction n as [| n IH]; intros i st; simpl; [reflexivity |].
  now rewrite same_records_run_body, IH.
Qed.

Lemma same_records_run (w : World) :
  _micro_tests_run m c w = _micro_tests_run m c' w.
Proof.
  unfold _micro_tests_run.
  now rewrite same_records_count, same_records_run_loop.
Qed.

Lemma same_records_list_loop (n : nat) :
  forall i tr, list_loop m c n i tr = list_loop m c' n i tr.
Proof.
  destruct Hsame as (_ & _ & H).
  induction n as [| n IH]; intros i tr; simpl; [reflexivity |].
  rewrite IH. f_equal. unfold list_body.
  destruct (H i) as [E | [E1 E2]]; [now rewrite E |].
  unfold valid in E1, E2. now rewrite E1, E2.
Qed.

Lemma same_records_show_list :
  micro_tests_show_list m c = micro_tests_show_list m c'.
Proof.
  unfold micro_tests_show_list.
  now rewrite same_records_count, same_records_list_loop.
Qed.

Lemma same_records_next_loop (fuel : nat) :
  forall i cur, next_loop m c fuel i cur = next_loop m c' fuel i cur.
Proof.
  destruct Hsame as (_ & _ & H).
  induction fuel as [| fuel IH]; intros i cur; simpl; [reflexivity |].
  rewrite <- same_records_count, !IH.
  destruct (H (Z.to_nat i)) as [E | [E1 E2]]; [now rewrite E |].
  unfold valid in E1, E2. now rewrite E1, E2.
Qed.

Lemma same_records_get_next_test (cur : Z) :
  _micro_tests_get_next_test m c cur = _micro_tests_get_next_test m c' cur.
Proof.
  unfold _micro_tests_get_next_test.
  now rewrite same_records_count, same_records_next_loop.
Qed.

End SameRecords.

Lemma with_slot_same_records {World : Type} (c : Catalog World) (i : nat)
  (t' : MicroTest World) :
  valid (test c i) = false -> valid t' = false ->
  same_records (with_slot c i t') c.
Proof.
  intros H H'. split; [reflexivity | split; [reflexivity |]].
  intros j. simpl. destruct (Nat.eqb_spec j i) as [-> | _].
  - right. now split.
  - now left.
Qed.

(** C7. A slot whose marker is not the sentinel is never executed by the
    sequential runner, never returned by the claim function of the
    scheduler and never printed in listing mode, whatever its other fields
    hold: the three functions give the same result when the slot is
    replaced by any other record without the marker. *)
Theorem invalid_slot_never_used {World : Type} (m : MicroTests)
  (c : Catalog World) (i : nat) (Hinv : valid (test c i) = false) :
  (forall w, ~ In i (calls (trace (_micro_tests_run m c w))))
  /\ (forall cur cur',
         _micro_tests_get_next_test m c cur <> Some (Some i, cur'))
  /\ (micro_tests_show_list m c
        = map (fun j => list_line (test c j)) (selected_indices m c)
      /\ ~ In i (selected_indices m c))
  /\ (forall t' : MicroTest World,
         valid t' = false ->
         (forall w, _micro_tests_run m (with_slot c i t') w
                    = _micro_tests_run m c w)
         /\ (forall cur, _micro_tests_get_next_test m (with_slot c i t') cur
                         = _micro_tests_get_next_test m c cur)
         /\ micro_tests_show_list m (with_slot c i t')
            = micro_tests_show_list m c).
Proof.
  assert (Hnot : ~ In i (selected_indices m c)).
  { intros Hin. apply filter_In in Hin as [_ Hsel].
    unfold selected in Hsel. now rewrite Hinv in Hsel. }
  split; [| split; [| split]].
  - intros w. now rewrite micro_tests_run_calls.
  - intros cur cur' H. apply next_loop_found in H as [Hsel _].
    unfold selected in Hsel. now rewrite Hinv in Hsel.
  - split; [apply micro_tests_show_list_spec | exact Hnot].
  - intros t' Ht'.
    pose proof (with_slot_same_records c i t' Hinv Ht') as Hsame.
    split; [| split].
    + intros w. now apply same_records_run.
    + intros cur. now apply same_records_get_next_test.
    + now apply same_records_show_list.
Qed.

Lemma invalid_slot_never_used_witness :
  valid (test test_c_padded 1) = false
  /\ forall w,
      ~ In 1%nat (calls (trace (_micro_tests_run default_settings
                                 test_c_padded w))).
Proof.
  split; [reflexivity |].
  apply (invalid_slot_never_used default_settings test_c_padded 1).
  reflexivity.
Defined.

(** ** The argument parser *)

Lemma parse_loop_nil (m : MicroTests) : parse_loop [] m = (0, m, []).
Proof. reflexivity. Qed.

Lemma parse_loop_cons (a : string) (rest : list string) (m : MicroTests) :
  parse_loop (a :: rest) m =
  if (strcmp_eq0 a "--help" || strcmp_eq0 a "-h")%bool then
    parse_loop rest (set_print_help true m)
  else if strcmp_eq0 a "--list" then
    parse_loop rest (set_show_list true m)
  else if strcmp_eq0 a "--suite" then
    match rest with
    | [] => (-1, m, [Print stderr ("Usage: --suite <suite-name>" ++ nl)])
    | v :: rest' => parse_loop rest' (set_run_suite v m)
    end
  else if strcmp_eq0 a "--test" then
    match rest with
    | [] => (-1, m, [Print stderr ("Usage: --test <test-name>" ++ nl)])
    | v :: rest' => parse_loop rest' (set_run_test v m)
    end
  else if strcmp_eq0 a "--no-banner" then
    parse_loop rest (set_print_banner false m)
  else if strcmp_eq0 a "--debug" then
    parse_loop rest (set_debug true m)
  else if strcmp_eq0 a "--quiet" then
    parse_loop rest (set_quiet true m)
  else if strcmp_eq0 a "--multithreaded" then
    parse_loop rest (set_run_multithreaded true m)
  else if strcmp_eq0 a "--threads" then
    match rest with
    | [] => (-1, m, [Print stderr ("Usage: --threads <n>" ++ nl)])
    | v :: rest' =>
        if atoi v <=? 0 then
          (-1, set_thread_number (atoi v) m,
           [Print stderr
              ("Error: Thread number " ++ v
               ++ " must be an integer and positive number")])
        else parse_loop rest' (set_thread_number (atoi v) m)
    end
  else
    (-1, m,
     [Print stdout ("Unrecognized argument: " ++ a ++ nl);
      Print stdout ("Try --help or -h" ++ nl)]).
Proof. reflexivity. Qed.

(** Splits on the tests of the current argument, in the order of the code. *)
Ltac parse_cases a rest :=
  rewrite (parse_loop_cons a rest) in *;
  destruct (strcmp_eq0 a "--help" || strcmp_eq0 a "-h")%bool;
  [| destruct (strcmp_eq0 a "--list");
     [| destruct (strcmp_eq0 a "--suite");
        [| destruct (strcmp_eq0 a "--test");
           [| destruct (strcmp_eq0 a "--no-banner");
              [| destruct (strcmp_eq0 a "--debug");
                 [| destruct (strcmp_eq0 a "--quiet");
                    [| destruct (strcmp_eq0 a "--multithreaded");
                       [| destruct (strcmp_eq0 a "--threads")]]]]]]]].

(** The parser returns 0 and has printed nothing, or returns -1 after a
    message; it invokes no callback. *)
Lemma parse_loop_result (n : nat) :
  forall args m r m' out,
    (List.length args <= n)%nat ->
    parse_loop args m = (r, m', out) ->
    calls out = [] /\ ((r = 0 /\ out = []) \/ (r = -1 /\ out <> [])).
Proof.
  induction n as [| n IH]; intros [| a rest] m r m' out Hlen H;
    simpl in Hlen; try lia.
  - injection H as <- _ <-. split; [reflexivity | now left].
  - injection H as <- _ <-. split; [reflexivity | now left].
  - parse_cases a rest;
      try (apply IH in H; [exact H | lia]);
      try (destruct rest as [| v rest'];
           [injection H as <- _ <-; split; [reflexivity |];
            right; split; [reflexivity | discriminate]
           | simpl in Hlen]);
      try (apply IH in H; [exact H | lia]).
    + destruct (atoi v <=? 0).
      * injection H as <- _ <-. split; [reflexivity |].
        right. split; [reflexivity | discriminate].
      * apply IH in H; [exact H | lia].
    + injection H as <- _ <-. split; [reflexivity |].
      right. split; [reflexivity | discriminate].
Qed.

Lemma parse_args_result (argv : list string) (r : Z) (m : MicroTests)
  (out : list event) :
  micro_tests_parse_args argv = (r, m, out) ->
  calls out = [] /\ ((r = 0 /\ out = []) \/ (r = -1 /\ out <> [])).
Proof.
  unfold micro_tests_parse_args. intros H.
  now apply (parse_loop_result (List.length (tl argv))) in H.
Qed.

(** Arguments that parse to the end leave the parser where it goes on with
    what follows them. *)
Lemma parse_loop_app (n : nat) :
  forall pre post m m1 out,
    (List.length pre <= n)%nat ->
    parse_loop pre m = (0, m1, out) ->
    parse_loop (pre ++ post) m = parse_loop post m1.
Proof.
  induction n as [| n IH]; intros [| a rest] post m m1 out Hlen H;
    simpl in Hlen; try lia.
  - now injection H as <-.
  - now injection H as <-.
  - simpl app. rewrite (parse_loop_cons a (rest ++ post)).
    parse_cases a rest;
      try (eapply IH; [| exact H]; lia);
      try (destruct rest as [| v rest'];
           [discriminate H | simpl in Hlen; simpl app]);
      try (eapply IH; [| exact H]; lia).
    + cbv beta iota. destruct (atoi v <=? 0); [discriminate H |].
      eapply IH; [| exact H]; lia.
    + discriminate H.
Qed.

Lemma parse_loop_threads (rest : list string) (m : MicroTests) :
  parse_loop ("--threads"%string :: rest) m =
  match rest with
  | [] => (-1, m, [Print stderr ("Usage: --threads <n>" ++ nl)])
  | v :: rest' =>
      if atoi v <=? 0 then
        (-1, set_thread_number (atoi v) m,
         [Print stderr
            ("Error: Thread number " ++ v
             ++ " must be an integer and positive number")])
      else parse_loop rest' (set_thread_number (atoi v) m)
  end.
Proof. reflexivity. Qed.

Lemma wrap_int_small (z : Z) : in_int z -> wrap_int z = z.
Proof.
  unfold in_int, wrap_int, wrap. intros H.
  change (2 ^ (32 - 1)) with 2147483648 in *.
  change (2 ^ 32) with 4294967296 in *.
  change (2 ^ 31) with 2147483648 in *.
  rewrite Z.mod_small; lia.
Qed.

Lemma wrap_long_small (z : Z) : in_long z -> wrap_long z = z.
Proof.
  unfold in_long, wrap_long, wrap. intros H.
  change (2 ^ (64 - 1)) with 9223372036854775808 in *.
  change (2 ^ 64) with 18446744073709551616 in *.
  change (2 ^ 63) with 9223372036854775808 in *.
  rewrite Z.mod_small; lia.
Qed.

Lemma clamp_long_small (z : Z) : in_long z -> clamp_long z = z.
Proof.
  unfold in_long, clamp_long, LONG_MIN, LONG_MAX. intros H.
  destruct (z <? - 2 ^ 63) eqn:E1; [apply Z.ltb_lt in E1; lia |].
  destruct (z >? 2 ^ 63 - 1) eqn:E2; [| reflexivity].
  apply Z.gtb_lt in E2. lia.
Qed.

(** The digits of a number that fits an [int] are converted to it. *)
Lemma atoi_digits (s : string) :
  positive_integer_text s = true -> digits_value s 0 < 2 ^ 31 ->
  atoi s = digits_value s 0 /\ 0 < atoi s.
Proof.
  unfold positive_integer_text. rewrite !andb_true_iff, Z.ltb_lt.
  intros [[Hne Hdig] Hpos] Hlt.
  assert (E : strtol10 s = digits_value s 0).
  { destruct s as [| ch s']; [discriminate |].
    simpl in Hdig. apply andb_true_iff in Hdig as [Hc _].
    unfold strtol10.
    assert (Hskip : skip_spaces (String ch s') = String ch s').
    { simpl.
      destruct ch as [[] [] [] [] [] [] [] []]; try discriminate Hc;
        reflexivity. }
    rewrite Hskip.
    assert (Hcl : clamp_long (digits_value (String ch s') 0)
                  = digits_value (String ch s') 0).
    { apply clamp_long_small. unfold in_long.
      change (2 ^ 31) with 2147483648 in Hlt.
      change (2 ^ 63) with 9223372036854775808. lia. }
    destruct ch as [[] [] [] [] [] [] [] []]; try discriminate Hc;
      exact Hcl. }
  unfold atoi. rewrite E, wrap_int_small; [lia |].
  unfold in_int. change (2 ^ 31) with 2147483648 in *. lia.
Qed.

Lemma calls_map_list_line {World : Type} (c : Catalog World) (l : list nat) :
  calls (map (fun j => list_line (test c j)) l) = [].
Proof. induction l; simpl; trivial. Qed.

Lemma on_stdout_map_list_line {World : Type} (c : Catalog World)
  (l : list nat) :
  Forall on_stdout (map (fun j => list_line (test c j)) l).
Proof. induction l; simpl; constructor; simpl; trivial. Qed.

(** C9. When the arguments parse and select help or listing mode,
    [micro_tests_run] returns 0 and invokes no callback: the world and the
    cursor are those it started with.  What it writes goes to the
    standard output only: with help selected, the eleven lines of the
    usage text; otherwise, with listing selected, one line with the suite
    and the name of each valid matching record, in index order. *)
Theorem help_and_list_execute_nothing {World : Type} (argv : list string)
  (c : Catalog World) (cur : Z) (sched : list nat) (w : World)
  (r : Z) (m : MicroTests) (out : list event)
  (Hparse : micro_tests_parse_args argv = (r, m, out))
  (Hok : 0 <= r)
  (Hmode : print_help m = true \/ show_list m = true) :
  exists o,
    micro_tests_run argv c cur sched w = Some (o, cur)
    /\ status o = 0
    /\ calls (trace o) = []
    /\ world o = w
    /\ Forall on_stdout (trace o)
    /\ (print_help m = true ->
        trace o
        = [Print stdout ("micro-tests usage:" ++ nl);
           Print stdout nl;
           Print stdout ("  --help,-h             show help message" ++ nl);
           Print stdout ("  --list                list tests" ++ nl);
           Print stdout ("  --suite <suite-name>  run a specific suite" ++ nl);
           Print stdout ("  --test  <test-name>   run a specific test" ++ nl);
           Print stdout
             ("  --multithreaded       run tests on multiple threads" ++ nl);
           Print stdout
             ("  --threads <n>         specify the number n of threads (use with --multithreaded)"
              ++ nl);
           Print stdout ("  --no-banner           do not print the banner" ++ nl);
           Print stdout ("  --debug               additional debug prints" ++ nl);
           Print stdout ("  --quiet               do not print OK results" ++ nl)])
    /\ (print_help m = false ->
        trace o
        = map (fun j =>
                 Print stdout ("suite: " ++ test_suite (test c j)
                               ++ ", test: " ++ test_name (test c j) ++ nl))
            (filter (fun i => selected m (test c i))
               (seq 0 (Z.to_nat (count c))))).
Proof.
  destruct (parse_args_result _ _ _ _ Hparse) as [_ [[-> ->] | [-> _]]];
    [| lia].
  unfold micro_tests_run. rewrite Hparse. simpl.
  destruct (print_help m) eqn:Hh.
  - eexists. split; [reflexivity |]. simpl.
    split; [reflexivity |]. split; [reflexivity |]. split; [reflexivity |].
    split; [repeat constructor |].
    split; [reflexivity | discriminate].
  - destruct Hmode as [Hm | Hm]; [discriminate |]. rewrite Hm.
    eexists. split; [reflexivity |]. simpl.
    rewrite micro_tests_show_list_spec.
    split; [reflexivity |].
    split; [apply calls_map_list_line |].
    split; [reflexivity |].
    split; [apply on_stdout_map_list_line |].
    split; [discriminate | reflexivity].
Qed.

Lemma help_and_list_execute_nothing_witness :
  exists o,
    micro_tests_run ["./test"; "--suite"; "base_tests"; "--list"]%string
      test_c 0 [] tt = Some (o, 0)
    /\ status o = 0
    /\ calls (trace o) = []
    /\ world o = tt
    /\ trace o
       = [Print stdout ("suite: base_tests, test: simple_assertion" ++ nl);
          Print stdout ("suite: base_tests, test: simple_assert_eq" ++ nl)].
Proof.
  destruct (help_and_list_execute_nothing
              ["./test"; "--suite"; "base_tests"; "--list"]%string
              test_c 0 [] tt 0
              (set_show_list true
                 (set_run_suite "base_tests" default_settings))
              [] eq_refl ltac:(lia) (or_intror eq_refl))
    as (o & Hrun & Hs & Hc & Hw & _ & _ & Hlist).
  exists o. split; [exact Hrun |].
  split; [exact Hs |]. split; [exact Hc |]. split; [exact Hw |].
  rewrite Hlist by reflexivity. reflexivity.
Defined.

(** A failed parse ends [micro_tests_run] with status 1 before anything
    else happens. *)
Lemma micro_tests_run_parse_failure {World : Type} (argv : list string)
  (c : Catalog World) (cur : Z) (sched : list nat) (w : World) :
  fst (fst (micro_tests_parse_args argv)) < 0 ->
  micro_tests_run argv c cur sched w
  = Some ({| status := 1;
             trace := snd (micro_tests_parse_args argv);
             world := w |}, cur)
  /\ calls (snd (micro_tests_parse_args argv)) = [].
Proof.
  intros H. unfold micro_tests_run.
  destruct (micro_tests_parse_args argv) as [[r m] out] eqn:E.
  simpl in *. apply parse_args_result in E as [Hc _].
  apply Z.ltb_lt in H. rewrite H. now split.
Qed.

(** What the parser does with [--threads]: after arguments [pre] that
    parse, the option is accepted exactly when [atoi] of its argument is
    above zero, whatever the text of the argument. *)
Lemma threads_option_follows_atoi (prog : string) (pre rest : list string)
  (s : string) (m1 : MicroTests)
  (Hpre : parse_loop pre default_settings = (0, m1, [])) :
  fst (fst (micro_tests_parse_args (prog :: pre ++ ["--threads"%string]))) = -1
  /\ (atoi s <= 0 ->
      fst (fst (micro_tests_parse_args
                  (prog :: pre ++ "--threads"%string :: s :: rest))) = -1)
  /\ (0 < atoi s ->
      micro_tests_parse_args (prog :: pre ++ "--threads"%string :: s :: rest)
      = parse_loop rest (set_thread_number (atoi s) m1))
  /\ (positive_integer_text s = true -> digits_value s 0 < 2 ^ 31 ->
      0 < atoi s).
Proof.
  unfold micro_tests_parse_args. simpl tl.
  split; [| split; [| split]].
  - now rewrite (parse_loop_app _ _ _ _ _ _ (le_n _) Hpre).
  - intros Hs.
    rewrite (parse_loop_app _ _ _ _ _ _ (le_n _) Hpre), parse_loop_threads.
    apply Z.leb_le in Hs. now rewrite Hs.
  - intros Hs.
    rewrite (parse_loop_app _ _ _ _ _ _ (le_n _) Hpre), parse_loop_threads.
    destruct (Z.leb_spec (atoi s) 0); [lia | reflexivity].
  - intros H1 H2. now apply atoi_digits.
Qed.

(** C5 (the code departs from the claim). The parser does check the
    argument of [--threads]: with the argument missing, or [0], [-3] or
    [abc], it returns -1, with the message that the thread number must be
    an integer and positive number, and [micro_tests_run] returns 1
    without invoking a callback.  But the check is made on what [atoi]
    returns: [4abc] is no positive integer, and [--threads 4abc] is
    accepted, with four threads, and the tests run. *)
Theorem threads_option_accepts_non_integer :
  positive_integer_text "4abc" = false
  /\ micro_tests_parse_args ["./test"; "--threads"; "4abc"]%string
     = (0, set_thread_number 4 default_settings, [])
  /\ option_map (fun r => (status (fst r), calls (trace (fst r))))
       (micro_tests_run ["./test"; "--threads"; "4abc"]%string
          test_c 0 [] tt)
     = Some (0, [0; 1; 2]%nat)
  /\ micro_tests_parse_args ["./test"; "--threads"]%string
     = (-1, default_settings,
        [Print stderr ("Usage: --threads <n>" ++ nl)])
  /\ micro_tests_parse_args ["./test"; "--threads"; "0"]%string
     = (-1, set_thread_number 0 default_settings,
        [Print stderr
           "Error: Thread number 0 must be an integer and positive number"])
  /\ micro_tests_parse_args ["./test"; "--threads"; "-3"]%string
     = (-1, set_thread_number (-3) default_settings,
        [Print stderr
           "Error: Thread number -3 must be an integer and positive number"])
  /\ micro_tests_parse_args ["./test"; "--threads"; "abc"]%string
     = (-1, set_thread_number 0 default_settings,
        [Print stderr
           "Error: Thread number abc must be an integer and positive number"])
  /\ micro_tests_run ["./test"; "--threads"; "abc"]%string test_c 0 [] tt
     = Some ({| status := 1;
                trace :=
                  [Print stderr
                     "Error: Thread number abc must be an integer and positive number"];
                world := tt |}, 0).
Proof.
  repeat (split; [reflexivity |]). reflexivity.
Qed.

(** ** Output and result of the sequential runner *)

Lemma wrap_int_range (z : Z) : in_int (wrap_int z).
Proof.
  unfold in_int, wrap_int, wrap.
  change (2 ^ (32 - 1)) with 2147483648.
  change (2 ^ 32) with 4294967296.
  change (2 ^ 31) with 2147483648.
  pose proof (Z.mod_pos_bound (z + 2147483648) 4294967296). lia.
Qed.






(** C3 (the code departs from the claim). A test that returns a positive
    value is reported OK and yet counted: next to a failing test it
    cancels the failure, and the runner returns 0 after a FAILED line; on
    its own it makes the count returned negative. *)
Theorem sequential_counts_positive_returns :
  (let o := _micro_tests_run default_settings mixed_returns tt in
   calls (trace o) = [0; 1]%nat
   /\ status o = 0
   /\ prints (trace o)
      = [Print stderr ("suite: s, test: fails FAILED" ++ nl);
         Print stdout ("suite: s, test: positive OK" ++ nl);
         Print stdout (nl ++ "Tests done: 0 tests failed" ++ nl ++ nl)])
  /\ (let o := _micro_tests_run default_settings positive_return tt in
      calls (trace o) = [0]%nat
      /\ status o = -1
      /\ prints (trace o)
         = [Print stdout ("suite: s, test: positive OK" ++ nl);
            Print stdout (nl ++ "Tests done: -1 tests failed" ++ nl ++ nl)]).
Proof.
  repeat split; reflexivity.
Qed.

(** When every callback returns 0 or -1, the values of [TEST_SUCCESS],
    [TEST_FAILED] and the assertion macros, the counter is the number of
    failed tests. *)
Lemma add_returns_protocol (rs : list (nat * Z)) :
  forall o,
    Forall (fun ir => snd ir = 0 \/ snd ir = -1) rs ->
    - 2 ^ 31 <= o - failures rs -> o <= 0 ->
    add_returns o rs = o - failures rs.
Proof.
  unfold add_returns, failures.
  change (2 ^ 31) with 2147483648.
  induction rs as [| [i r] rs IH]; intros o Hall Hlo Hhi; simpl in *.
  - lia.
  - assert (Hint : forall z, -2147483648 <= z <= 0 -> wrap_int z = z).
    { intros z Hz. apply wrap_int_small. unfold in_int.
      change (2 ^ 31) with 2147483648. lia. }
    apply Forall_cons_iff in Hall as [Hr Hrest]. simpl in Hr.
    destruct Hr as [-> | ->]; simpl in *.
    + rewrite Hint by lia. rewrite IH; trivial; lia.
    + rewrite Hint by lia. rewrite IH; trivial; lia.
Qed.

Lemma sequential_status_protocol {World : Type} (m : MicroTests)
  (c : Catalog World) (w : World) :
  let rs := fst (exec_in_order c (selected_indices m c) w) in
  Forall (fun ir => snd ir = 0 \/ snd ir = -1) rs ->
  failures rs < 2 ^ 31 ->
  status (_micro_tests_run m c w) = failures rs.
Proof.
  intros rs Hall Hlt. subst rs. rewrite micro_tests_run_spec.
  destruct (exec_in_order c (selected_indices m c) w) as [rs w']. simpl in *.
  change (2 ^ 31) with 2147483648 in Hlt.
  assert (0 <= failures rs) by (unfold failures; lia).
  rewrite add_returns_protocol;
    try (change (2 ^ 31) with 2147483648); trivial; try lia.
  rewrite wrap_int_small; [lia |].
  unfold in_int. change (2 ^ 31) with 2147483648. lia.
Qed.

(** ** The workers *)

Lemma nth_error_set_nth_eq {A : Type} (l : list A) :
  forall (k : nat) (x y : A),
    nth_error l k = Some y -> nth_error (set_nth k x l) k = Some x.
Proof.
  induction l as [| z l IH]; intros [| k] x y H; simpl in *;
    try discriminate; eauto.
Qed.

Lemma set_nth_split {A : Type} (l : list A) :
  forall (k : nat) (x y : A),
    nth_error l k = Some y ->
    exists l1 l2, l = l1 ++ y :: l2 /\ set_nth k x l = l1 ++ x :: l2.
Proof.
  induction l as [| z l IH]; intros [| k] x y H; simpl in *;
    try discriminate.
  - injection H as ->. now exists [], l.
  - destruct (IH k x y H) as (l1 & l2 & E1 & E2).
    exists (z :: l1), l2. simpl. now rewrite <- E1, E2.
Qed.

(** The step of a worker that holds a valid record. *)
Lemma thread_step_exec {World : Type} (m : MicroTests) (c : Catalog World)
  (st : Shared World) (k : nat) (wk : Worker) (i : nat) :
  nth_error (workers st) k = Some wk ->
  w_pc wk = AtExec i ->
  valid (test c i) = true ->
  thread_step m c k st =
  let (r, w') := function_pointer (test c i) (sh_world st) in
  let ret := wrap_long (w_ret wk + r) in
  Some {| micro_tests_current := micro_tests_current st;
          sh_world := w';
          sh_trace :=
            sh_trace st
            ++ (if debug m then
                  [Print stdout ("(thread " ++ fmt_d (Z.of_nat k) ++ ") ")]
                else [])
            ++ Call i :: thread_line m (test c i) ret;
          workers := set_nth k {| w_pc := AtClaim; w_ret := ret |}
                       (workers st) |}.
Proof.
  intros Hk Hpc Hv. unfold thread_step. rewrite Hk, Hpc.
  unfold valid in Hv. rewrite Hv. simpl.
  now destruct (function_pointer (test c i) (sh_world st)).
Qed.

(** C10 (amended). A worker that executes the record of slot [i] adds the
    value returned to its running total and chooses the line by the sign
    of that total, not of the value returned: FAILED when the total is
    negative, OK (unless quiet) when it is not.  So a test that returns a
    non-negative value is printed as FAILED, and its OK line is not
    printed, whenever the total is still negative after it, as after an
    earlier failure and a return of 0; and it is printed as OK when its
    return lifts the total to 0 or above. *)
Theorem thread_line_follows_running_total {World : Type} (m : MicroTests)
  (c : Catalog World) (st : Shared World) (k : nat) (wk : Worker) (i : nat)
  (Hk : nth_error (workers st) k = Some wk)
  (Hpc : w_pc wk = AtExec i)
  (Hvalid : valid (test c i) = true) :
  let r := fst (function_pointer (test c i) (sh_world st)) in
  let total := wrap_long (w_ret wk + r) in
  let failed :=
    [Print stderr ("suite: " ++ test_suite (test c i) ++ " test: "
                   ++ test_name (test c i) ++ " FAILED" ++ nl)] in
  let ok :=
    [Print stdout ("suite: " ++ test_suite (test c i) ++ ", test: "
                   ++ test_name (test c i) ++ " OK" ++ nl)] in
  exists st',
    thread_step m c k st = Some st'
    /\ nth_error (workers st') k = Some {| w_pc := AtClaim; w_ret := total |}
    /\ sh_trace st'
       = sh_trace st
         ++ (if debug m then
               [Print stdout ("(thread " ++ fmt_d (Z.of_nat k) ++ ") ")]
             else [])
         ++ Call i :: thread_line m (test c i) total
    /\ (total < 0 -> thread_line m (test c i) total = failed)
    /\ (0 <= total ->
        thread_line m (test c i) total = if quiet m then [] else ok)
    /\ (in_long (w_ret wk) -> 0 <= r -> w_ret wk + r < 0 ->
        thread_line m (test c i) total = failed)
    /\ (in_long (w_ret wk) -> w_ret wk < 0 -> 0 <= w_ret wk + r < 2 ^ 63 ->
        thread_line m (test c i) total = if quiet m then [] else ok).
Proof.
  intros r total failed ok.
  rewrite (thread_step_exec m c st k wk i Hk Hpc Hvalid).
  subst r total.
  destruct (function_pointer (test c i) (sh_world st)) as [r w'].
  simpl fst.
  assert (Hneg : wrap_long (w_ret wk + r) < 0 ->
                 thread_line m (test c i) (wrap_long (w_ret wk + r)) = failed).
  { intros H. unfold thread_line. apply Z.ltb_lt in H. now rewrite H. }
  assert (Hpos : 0 <= wrap_long (w_ret wk + r) ->
                 thread_line m (test c i) (wrap_long (w_ret wk + r))
                 = if quiet m then [] else ok).
  { intros H. unfold thread_line. apply Z.ltb_ge in H. rewrite H.
    now destruct (quiet m). }
  eexists. split; [reflexivity |]. simpl.
  split; [eapply nth_error_set_nth_eq; exact Hk |].
  split; [reflexivity |].
  split; [exact Hneg |].
  split; [exact Hpos |].
  split.
  - intros Hin Hr Hsum. apply Hneg.
    rewrite wrap_long_small; [exact Hsum |].
    unfold in_long in *. lia.
  - intros Hin Hlt Hsum. apply Hpos.
    rewrite wrap_long_small; [lia |].
    unfold in_long in *. lia.
Qed.

Lemma thread_line_follows_running_total_witness :
  let st := {| micro_tests_current := 2;
               sh_world := tt;
               sh_trace := [];
               workers := [{| w_pc := AtExec 1; w_ret := -1 |}] |} in
  nth_error (workers st) 0 = Some {| w_pc := AtExec 1; w_ret := -1 |}
  /\ valid (test fail_then_pass 1) = true
  /\ exists st',
      thread_step default_settings fail_then_pass 0 st = Some st'
      /\ sh_trace st'
         = [Call 1; Print stderr ("suite: s test: passes FAILED" ++ nl)].
Proof.
  intros st.
  split; [reflexivity | split; [reflexivity |]].
  destruct (thread_line_follows_running_total default_settings fail_then_pass
              st 0 {| w_pc := AtExec 1; w_ret := -1 |} 1
              eq_refl eq_refl eq_refl)
    as (st' & Hstep & _ & Htrace & _).
  exists st'. split; [exact Hstep |].
  rewrite Htrace. reflexivity.
Defined.

(** The claim as stated fails: a worker whose total is negative after a
    failed test prints the next test, which returns 1, as OK. *)
Lemma thread_prints_ok_after_negative_total :
  let m := set_print_banner false (multithreaded_settings 1) in
  option_map (fun st => map w_ret (workers st))
    (run_schedule m mixed_returns [0; 0]%nat (start_state m 0 tt))
  = Some [-1]
  /\ option_map (fun r => trace (fst r))
       (_micro_tests_run_multithreaded m mixed_returns 0
          [0; 0; 0; 0; 0]%nat tt)
     = Some [Call 0;
             Print stderr ("suite: s test: fails FAILED" ++ nl);
             Call 1;
             Print stdout ("suite: s, test: positive OK" ++ nl);
             Print stdout (nl ++ "Tests done: 0 tests failed" ++ nl ++ nl)].
Proof.
  split; reflexivity.
Qed.

(** ** The scheduler under every schedule *)

Lemma wrap_long_range (z : Z) : in_long (wrap_long z).
Proof.
  unfold in_long, wrap_long, wrap.
  change (2 ^ (64 - 1)) with 9223372036854775808.
  change (2 ^ 64) with 18446744073709551616.
  change (2 ^ 63) with 9223372036854775808.
  pose proof (Z.mod_pos_bound (z + 9223372036854775808) 18446744073709551616).
  lia.
Qed.

Lemma wrap_long_add_l (a b : Z) : wrap_long (wrap_long a + b) = wrap_long (a + b).
Proof.
  unfold wrap_long, wrap. f_equal.
  replace ((a + 2 ^ (64 - 1)) mod 2 ^ 64 - 2 ^ (64 - 1) + b + 2 ^ (64 - 1))
    with ((a + 2 ^ (64 - 1)) mod 2 ^ 64 + b) by ring.
  rewrite Z.add_mod_idemp_l by (now change (2 ^ 64) with 18446744073709551616).
  f_equal. ring.
Qed.

Lemma wrap_long_add_r (a b : Z) : wrap_long (a + wrap_long b) = wrap_long (a + b).
Proof. now rewrite Z.add_comm, wrap_long_add_l, Z.add_comm. Qed.

Lemma wrap_long_congr (a b c : Z) :
  wrap_long a = wrap_long b -> wrap_long (a + c) = wrap_long (b + c).
Proof.
  intros H. now rewrite <- (wrap_long_add_l a), H, wrap_long_add_l.
Qed.

Lemma join_all_sum (ws : list Worker) :
  join_all ws = wrap_long (sum_ret ws).
Proof.
  unfold join_all.
  enough (H : forall a, in_long a ->
              fold_left (fun ret wk => wrap_long (ret + w_ret wk)) ws a
              = wrap_long (a + sum_ret ws)).
  { rewrite H; [reflexivity |]. unfold in_long. lia. }
  induction ws as [| wk ws IH]; intros a Ha; simpl.
  - now rewrite Z.add_0_r, wrap_long_small.
  - rewrite IH by apply wrap_long_range.
    rewrite wrap_long_add_l. f_equal. ring.
Qed.

Lemma sum_ret_app (l1 l2 : list Worker) :
  sum_ret (l1 ++ l2) = sum_ret l1 + sum_ret l2.
Proof.
  induction l1 as [| wk l1 IH]; simpl; [reflexivity |]. rewrite IH. ring.
Qed.

Lemma pending_app (l1 l2 : list Worker) :
  pending (l1 ++ l2) = pending l1 ++ pending l2.
Proof. apply flat_map_app. Qed.

Lemma sum_returns_app {World : Type} (c : Catalog World) (w0 : World)
  (l1 l2 : list nat) :
  sum_returns c w0 (l1 ++ l2) = sum_returns c w0 l1 + sum_returns c w0 l2.
Proof.
  induction l1 as [| i l1 IH]; simpl; [reflexivity |]. rewrite IH. ring.
Qed.

Lemma sum_returns_perm {World : Type} (c : Catalog World) (w0 : World)
  (l1 l2 : list nat) :
  Permutation l1 l2 -> sum_returns c w0 l1 = sum_returns c w0 l2.
Proof.
  induction 1; simpl; try lia.
Qed.

Lemma set_nth_length {A : Type} (l : list A) :
  forall k x, List.length (set_nth k x l) = List.length l.
Proof.
  induction l as [| y l IH]; intros [| k] x; simpl; auto.
Qed.

Lemma calls_thread_line {World : Type} (m : MicroTests) (t : MicroTest World)
  (ret : Z) :
  calls (thread_line m t ret) = [].
Proof.
  unfold thread_line. destruct (ret <? 0); [reflexivity |].
  now destruct (quiet m).
Qed.

Section Scheduler.

Context {World : Type}.
Variable m : MicroTests.
Variable c : Catalog World.

(** The cursor is an [int]: it can address every slot of the section. *)
Hypothesis Hsmall : count c < 2 ^ 31.

(** The value of the cursor when the runner is entered. *)
Context {cur0 : Z}.
Hypothesis Hcur0 : 0 <= cur0 <= count c.

Lemma count_nonneg : 0 <= count c.
Proof.
  unfold count, to_size_t, sizeof_MicroTest.
  apply Z.div_pos; [| lia].
  apply Z.mod_pos_bound. now change (2 ^ 64) with 18446744073709551616.
Qed.

Lemma to_size_t_index (i : Z) : 0 <= i <= count c -> to_size_t i = i.
Proof.
  intros H. unfold to_size_t. apply Z.mod_small.
  change (2 ^ 31) with 2147483648 in Hsmall.
  change (2 ^ 64) with 18446744073709551616. lia.
Qed.

Lemma wrap_int_next (i : Z) : 0 <= i < count c -> wrap_int (i + 1) = i + 1.
Proof.
  intros H. apply wrap_int_small. unfold in_int.
  change (2 ^ 31) with 2147483648 in *. lia.
Qed.

(** The loop of the claim function ends within the fuel it is given. *)
Lemma next_loop_total (fuel : nat) :
  forall i cur,
    0 <= i <= count c -> (Z.to_nat (count c - i) < fuel)%nat ->
    exists res, next_loop m c fuel i cur = Some res.
Proof.
  induction fuel as [| fuel IH]; intros i cur Hi Hfuel; [lia |].
  rewrite next_loop_step, to_size_t_index by assumption.
  destruct (Z.ltb_spec i (count c)); [| eauto].
  destruct (selected m (test c (Z.to_nat i))); [eauto |].
  rewrite wrap_int_next by lia.
  apply IH; lia.
Qed.

Lemma get_next_test_total (cur : Z) :
  0 <= cur <= count c ->
  exists res, _micro_tests_get_next_test m c cur = Some res.
Proof.
  intros H. apply next_loop_total; [assumption | lia].
Qed.

Lemma next_loop_found_range (fuel : nat) :
  forall i cur j cur',
    0 <= i <= count c ->
    next_loop m c fuel i cur = Some (Some j, cur') ->
    i <= Z.of_nat j < count c.
Proof.
  induction fuel as [| fuel IH]; intros i cur j cur' Hi H; [discriminate |].
  rewrite next_loop_step, to_size_t_index in H by assumption.
  destruct (Z.ltb_spec i (count c)); [| discriminate].
  destruct (selected m (test c (Z.to_nat i))).
  - injection H as <- _. lia.
  - rewrite wrap_int_next in H by lia.
    apply IH in H; lia.
Qed.

(** A claim hands out a selected slot at or after the cursor, and moves
    the cursor by one. *)
Lemma get_next_test_found (cur : Z) (i : nat) (cur' : Z) :
  0 <= cur <= count c ->
  _micro_tests_get_next_test m c cur = Some (Some i, cur') ->
  selected m (test c i) = true
  /\ cur' = cur + 1
  /\ cur <= Z.of_nat i < count c.
Proof.
  intros Hcur H. unfold _micro_tests_get_next_test in H.
  pose proof (next_loop_found_range _ _ _ _ _ Hcur H) as Hr.
  apply next_loop_found in H as [Hsel ->].
  rewrite wrap_int_next by lia. auto.
Qed.

Lemma remaining_found (cur : Z) (i : nat) (cur' : Z) :
  0 <= cur <= count c ->
  _micro_tests_get_next_test m c cur = Some (Some i, cur') ->
  remaining m c cur = i :: remaining m c cur'.
Proof.
  intros Hcur H.
  destruct (get_next_test_found cur i cur' Hcur H) as (_ & -> & Hi).
  unfold remaining.
  replace (Z.to_nat (count c - cur))
    with (S (Z.to_nat (count c - (cur + 1)))) by lia.
  simpl. now rewrite H.
Qed.

Lemma remaining_none (cur cur' : Z) :
  _micro_tests_get_next_test m c cur = Some (None, cur') ->
  remaining m c cur = [] /\ cur' = cur.
Proof.
  intros H. split.
  - unfold remaining. destruct (Z.to_nat (count c - cur)); simpl;
      [reflexivity | now rewrite H].
  - unfold _micro_tests_get_next_test in H. now apply next_loop_none in H.
Qed.

Lemma pending_cons (wk : Worker) (l : list Worker) :
  pending (wk :: l)
  = match w_pc wk with AtExec i => [i] | _ => [] end ++ pending l.
Proof. reflexivity. Qed.

(** Every step of every worker keeps the invariant and the number of
    workers. *)
Lemma thread_step_inv (k : nat) (st st' : Shared World) :
  scheduler_inv m c cur0 st ->
  thread_step m c k st = Some st' ->
  scheduler_inv m c cur0 st'
  /\ List.length (workers st') = List.length (workers st).
Proof.
  intros (Hcur & Hsel & Hret & Hperm) H.
  unfold thread_step in H.
  destruct (nth_error (workers st) k) as [wk |] eqn:Hk; [| discriminate].
  assert (Hin : In wk (workers st)) by (eapply nth_error_In; exact Hk).
  destruct (w_pc wk) as [| i |] eqn:Hpc; [| | discriminate].
  - (* the worker claims *)
    destruct (_micro_tests_get_next_test m c (micro_tests_current st))
      as [[found cur'] |] eqn:Hn; [| discriminate].
    injection H as <-. simpl.
    split; [| apply set_nth_length].
    match goal with
    | |- scheduler_inv _ _ _ {| workers := set_nth k ?x _ |} =>
        destruct (set_nth_split (workers st) k x wk Hk)
          as (l1 & l2 & E1 & E2)
    end.
    unfold scheduler_inv. simpl. rewrite E2.
    rewrite E1 in Hsel, Hret, Hperm.
    rewrite pending_app, pending_cons, Hpc in Hperm. simpl in Hperm.
    destruct found as [i |].
    + destruct (get_next_test_found _ _ _ Hcur Hn) as (Hi & -> & Hr).
      rewrite (remaining_found _ _ _ Hcur Hn) in Hperm, Hret.
      split; [lia |]. split; [| split].
      * intros wk' i' Hin' Hpc'.
        apply in_app_iff in Hin' as [Hin' | [<- | Hin']].
        -- apply (Hsel wk' i'); [apply in_app_iff; now left | exact Hpc'].
        -- simpl in Hpc'. now injection Hpc' as <-.
        -- apply (Hsel wk' i');
             [apply in_app_iff; right; now right | exact Hpc'].
      * intros (wk' & Hin' & Hpc'). exfalso.
        assert (Hnil : i :: remaining m c (micro_tests_current st + 1) = []).
        { apply Hret. exists wk'. split; [| exact Hpc'].
          apply in_app_iff in Hin' as [Hin' | [<- | Hin']].
          - apply in_app_iff. now left.
          - discriminate Hpc'.
          - apply in_app_iff. right. now right. }
        discriminate Hnil.
      * rewrite pending_app, pending_cons. simpl.
        etransitivity; [| exact Hperm].
        apply (Permutation_count_occ Nat.eq_dec). intros x.
        rewrite ?count_occ_app. simpl. rewrite ?count_occ_app. simpl.
        destruct (Nat.eq_dec i x); lia.
    + destruct (remaining_none _ _ Hn) as [Hnil ->].
      split; [exact Hcur |]. split; [| split].
      * intros wk' i' Hin' Hpc'.
        apply in_app_iff in Hin' as [Hin' | [<- | Hin']].
        -- apply (Hsel wk' i'); [apply in_app_iff; now left | exact Hpc'].
        -- discriminate Hpc'.
        -- apply (Hsel wk' i');
             [apply in_app_iff; right; now right | exact Hpc'].
      * intros _. exact Hnil.
      * rewrite pending_app, pending_cons. simpl. exact Hperm.
  - (* the worker executes the slot it holds *)
    pose proof (Hsel wk i Hin Hpc) as Hi.
    apply selected_valid in Hi. apply Z.eqb_eq in Hi. rewrite Hi in H.
    simpl in H.
    destruct (function_pointer (test c i) (sh_world st)) as [r w'].
    injection H as <-. simpl.
    split; [| apply set_nth_length].
    match goal with
    | |- scheduler_inv _ _ _ {| workers := set_nth k ?x _ |} =>
        destruct (set_nth_split (workers st) k x wk Hk)
          as (l1 & l2 & E1 & E2)
    end.
    unfold scheduler_inv. simpl. rewrite E2.
    rewrite E1 in Hsel, Hret, Hperm.
    rewrite pending_app, pending_cons, Hpc in Hperm. simpl in Hperm.
    split; [exact Hcur |]. split; [| split].
    + intros wk' i' Hin' Hpc'.
      apply in_app_iff in Hin' as [Hin' | [<- | Hin']].
      * apply (Hsel wk' i'); [apply in_app_iff; now left | exact Hpc'].
      * discriminate Hpc'.
      * apply (Hsel wk' i');
          [apply in_app_iff; right; now right | exact Hpc'].
    + intros (wk' & Hin' & Hpc'). apply Hret. exists wk'.
      split; [| exact Hpc'].
      apply in_app_iff in Hin' as [Hin' | [<- | Hin']].
      * apply in_app_iff. now left.
      * discriminate Hpc'.
      * apply in_app_iff. right. now right.
    + rewrite pending_app, pending_cons. simpl.
      match goal with
      | |- Permutation (calls ?t ++ _) _ =>
          replace (calls t) with (calls (sh_trace st) ++ [i])
      end.
      2: { rewrite !calls_app. simpl. rewrite calls_thread_line.
           now destruct (debug m). }
      etransitivity; [| exact Hperm].
      apply (Permutation_count_occ Nat.eq_dec). intros x.
      rewrite ?count_occ_app. simpl. rewrite ?count_occ_app. simpl.
      destruct (Nat.eq_dec i x); lia.
Qed.

Lemma run_schedule_inv (sched : list nat) :
  forall st st',
    scheduler_inv m c cur0 st ->
    run_schedule m c sched st = Some st' ->
    scheduler_inv m c cur0 st'
    /\ List.length (workers st') = List.length (workers st).
Proof.
  induction sched as [| k sched IH]; intros st st' Hinv H; simpl in H.
  - injection H as <-. now split.
  - destruct (thread_step m c k st) as [st1 |] eqn:Hstep; [| discriminate].
    destruct (thread_step_inv k st st1 Hinv Hstep) as [Hinv1 Hlen1].
    destruct (IH st1 st' Hinv1 H) as [Hinv' Hlen'].
    split; [exact Hinv' | congruence].
Qed.

Lemma pending_spawn (n : nat) :
  pending (repeat {| w_pc := AtClaim; w_ret := 0 |} n) = [].
Proof. induction n; simpl; trivial. Qed.

Lemma start_state_inv (w : World) :
  scheduler_inv m c cur0 (start_state m cur0 w).
Proof.
  unfold scheduler_inv, start_state, spawn.
  cbn [micro_tests_current sh_world sh_trace workers].
  split; [exact Hcur0 |]. split; [| split].
  - intros wk i Hin Hpc. apply repeat_spec in Hin. subst wk. discriminate.
  - intros (wk & Hin & Hpc). apply repeat_spec in Hin. subst wk.
    discriminate.
  - rewrite pending_spawn.
    now destruct (print_banner m).
Qed.

Lemma all_returned_pending (ws : list Worker) :
  forallb has_returned ws = true -> pending ws = [].
Proof.
  induction ws as [| wk ws IH]; intros H; [reflexivity |].
  simpl in H. apply andb_true_iff in H as [H1 H2].
  rewrite pending_cons, IH by assumption.
  unfold has_returned in H1. now destruct (w_pc wk).
Qed.

(** Whatever the number of workers and the schedule, the callbacks a
    complete run has invoked are the slots the claim function hands
    out from the cursor at entry, as often as it hands them out; and the
    cursor is left where the claim function finds nothing more. *)
Lemma multithreaded_calls (sched : list nat) (w : World) (o : Outcome World)
  (cur' : Z) :
  1 <= thread_number m ->
  _micro_tests_run_multithreaded m c cur0 sched w = Some (o, cur') ->
  Permutation (calls (trace o)) (remaining m c cur0)
  /\ 0 <= cur' <= count c
  /\ remaining m c cur' = [].
Proof.
  intros Hn H. unfold _micro_tests_run_multithreaded in H.
  destruct (run_schedule m c sched (start_state m cur0 w)) as [st |] eqn:Hrun;
    [| discriminate].
  destruct (forallb has_returned (workers st)) eqn:Hall; [| discriminate].
  injection H as <- <-. simpl.
  destruct (run_schedule_inv sched _ _ (start_state_inv w) Hrun)
    as [(Hcur & Hsel & Hret & Hperm) Hlen].
  rewrite (all_returned_pending _ Hall) in Hperm.
  assert (Hnil : remaining m c (micro_tests_current st) = []).
  { apply Hret.
    destruct (workers st) as [| wk ws] eqn:Ews.
    - simpl in Hlen. unfold start_state, spawn in Hlen. simpl in Hlen.
      rewrite repeat_length in Hlen. lia.
    - exists wk. split; [now left |].
      simpl in Hall. apply andb_true_iff in Hall as [Hwk _].
      unfold has_returned in Hwk. now destruct (w_pc wk). }
  split; [| split; [exact Hcur | exact Hnil]].
  rewrite Hnil in Hperm. simpl in Hperm. rewrite app_nil_r in Hperm.
  rewrite calls_app.
  assert (E : calls (if negb (quiet m) then
                       [Print stdout
                          (summary_line (wrap_long (- join_all (workers st)))
                             (join_all (workers st) =? -1))]
                     else []) = [])
    by now destruct (quiet m).
  rewrite E, app_nil_r. exact Hperm.
Qed.

(** With callbacks whose return does not depend on the world, the
    totals of the workers add up to the returns of the callbacks
    invoked so far, modulo the size of a [long]. *)
Variable w0 : World.
Hypothesis Hdet : deterministic c.

Lemma thread_step_sum (k : nat) (st st' : Shared World) :
  scheduler_inv m c cur0 st ->
  thread_step m c k st = Some st' ->
  wrap_long (sum_ret (workers st))
  = wrap_long (sum_returns c w0 (calls (sh_trace st))) ->
  wrap_long (sum_ret (workers st'))
  = wrap_long (sum_returns c w0 (calls (sh_trace st'))).
Proof.
  intros (Hcur & Hsel & Hret & Hperm) H Hsum.
  unfold thread_step in H.
  destruct (nth_error (workers st) k) as [wk |] eqn:Hk; [| discriminate].
  assert (Hin : In wk (workers st)) by (eapply nth_error_In; exact Hk).
  destruct (w_pc wk) as [| i |] eqn:Hpc; [| | discriminate].
  - destruct (_micro_tests_get_next_test m c (micro_tests_current st))
      as [[found cur'] |] eqn:Hn; [| discriminate].
    injection H as <-. simpl.
    match goal with
    | |- context [set_nth k ?x _] =>
        destruct (set_nth_split (workers st) k x wk Hk)
          as (l1 & l2 & E1 & E2)
    end.
    rewrite E2. rewrite E1 in Hsum.
    rewrite sum_ret_app in *. exact Hsum.
  - pose proof (Hsel wk i Hin Hpc) as Hi.
    apply selected_valid in Hi. apply Z.eqb_eq in Hi. rewrite Hi in H.
    simpl in H.
    pose proof (Hdet i (sh_world st) w0) as Hr.
    destruct (function_pointer (test c i) (sh_world st)) as [r w'].
    simpl in Hr.
    injection H as <-. simpl.
    match goal with
    | |- context [set_nth k ?x _] =>
        destruct (set_nth_split (workers st) k x wk Hk)
          as (l1 & l2 & E1 & E2)
    end.
    rewrite E2. rewrite E1 in Hsum.
    match goal with
    | |- context [calls ?t] =>
        replace (calls t) with (calls (sh_trace st) ++ [i])
    end.
    2: { rewrite !calls_app. simpl. rewrite calls_thread_line.
         now destruct (debug m). }
    rewrite sum_returns_app, sum_ret_app in *. simpl in *.
    rewrite <- Hr, Z.add_0_r.
    replace (sum_ret l1 + (wrap_long (w_ret wk + r) + sum_ret l2))
      with (wrap_long (w_ret wk + r) + (sum_ret l1 + sum_ret l2)) by ring.
    rewrite wrap_long_add_l.
    replace (w_ret wk + r + (sum_ret l1 + sum_ret l2))
      with (sum_ret l1 + (w_ret wk + sum_ret l2) + r) by ring.
    now apply wrap_long_congr.
Qed.

Lemma run_schedule_sum (sched : list nat) :
  forall st st',
    scheduler_inv m c cur0 st ->
    run_schedule m c sched st = Some st' ->
    wrap_long (sum_ret (workers st))
    = wrap_long (sum_returns c w0 (calls (sh_trace st))) ->
    wrap_long (sum_ret (workers st'))
    = wrap_long (sum_returns c w0 (calls (sh_trace st'))).
Proof.
  induction sched as [| k sched IH]; intros st st' Hinv H Hsum; simpl in H.
  - now injection H as <-.
  - destruct (thread_step m c k st) as [st1 |] eqn:Hstep; [| discriminate].
    destruct (thread_step_inv k st st1 Hinv Hstep) as [Hinv1 _].
    apply (IH st1 st' Hinv1 H).
    now apply (thread_step_sum k st st1).
Qed.

Lemma sum_ret_spawn (n : nat) :
  sum_ret (repeat {| w_pc := AtClaim; w_ret := 0 |} n) = 0.
Proof. induction n; simpl; lia. Qed.

(** Whatever the number of workers and the schedule, a complete run
    returns the sum of the returns of the callbacks claimed, as it is
    and not negated. *)
Lemma multithreaded_status (sched : list nat) (w : World) (o : Outcome World)
  (cur' : Z) :
  1 <= thread_number m ->
  _micro_tests_run_multithreaded m c cur0 sched w = Some (o, cur') ->
  status o = wrap_int (wrap_long (sum_returns c w0 (remaining m c cur0))).
Proof.
  intros Hn H.
  destruct (multithreaded_calls sched w o cur' Hn H) as [Hperm _].
  unfold _micro_tests_run_multithreaded in H.
  destruct (run_schedule m c sched (start_state m cur0 w)) as [st |] eqn:Hrun;
    [| discriminate].
  destruct (forallb has_returned (workers st)) eqn:Hall; [| discriminate].
  injection H as <- <-. simpl in *.
  rewrite join_all_sum. f_equal.
  rewrite (run_schedule_sum sched _ _ (start_state_inv w) Hrun).
  - rewrite calls_app in Hperm.
    assert (E : calls (if negb (quiet m) then
                         [Print stdout
                            (summary_line
                               (wrap_long (- join_all (workers st)))
                               (join_all (workers st) =? -1))]
                       else []) = [])
      by now destruct (quiet m).
    rewrite E, app_nil_r in Hperm.
    now rewrite (sum_returns_perm c w0 _ _ Hperm).
  - unfold start_state, spawn.
    cbn [micro_tests_current sh_world sh_trace workers].
    rewrite sum_ret_spawn. now destruct (print_banner m).
Qed.

End Scheduler.

(** ** Every run can be completed *)

Section Completion.

Context {World : Type}.
Variable m : MicroTests.
Variable c : Catalog World.
Hypothesis Hsmall : count c < 2 ^ 31.
Context {cur0 : Z}.
Hypothesis Hcur0 : 0 <= cur0 <= count c.

Lemma forallb_false_nth {A : Type} (f : A -> bool) (l : list A) :
  forallb f l = false ->
  exists k x, nth_error l k = Some x /\ f x = false.
Proof.
  induction l as [| y l IH]; simpl; [discriminate |].
  destruct (f y) eqn:E; simpl.
  - intros H. destruct (IH H) as (k & x & Hk & Hx).
    now exists (S k), x.
  - intros _. now exists 0%nat, y.
Qed.

Lemma weight_split (l1 l2 : list Worker) (wk : Worker) :
  list_sum (map pc_weight (l1 ++ wk :: l2))
  = (list_sum (map pc_weight l1) + pc_weight wk
     + list_sum (map pc_weight l2))%nat.
Proof.
  rewrite map_app, list_sum_app. simpl. lia.
Qed.

(** A worker that has not returned can take its step, and the bound
    goes down. *)
Lemma thread_step_progress (k : nat) (st : Shared World) (wk : Worker) :
  scheduler_inv m c cur0 st ->
  nth_error (workers st) k = Some wk ->
  has_returned wk = false ->
  exists st',
    thread_step m c k st = Some st'
    /\ (steps_left m c st' < steps_left m c st)%nat.
Proof.
  intros (Hcur & Hsel & Hret & Hperm) Hk Hnot.
  assert (Hin : In wk (workers st)) by (eapply nth_error_In; exact Hk).
  unfold thread_step. rewrite Hk.
  unfold has_returned in Hnot.
  destruct (w_pc wk) as [| i |] eqn:Hpc; [| | discriminate].
  - destruct (get_next_test_total m c Hsmall _ Hcur) as [[found cur'] Hn].
    rewrite Hn. eexists. split; [reflexivity |].
    unfold steps_left. simpl.
    match goal with
    | |- context [set_nth k ?x _] =>
        destruct (set_nth_split (workers st) k x wk Hk)
          as (l1 & l2 & E1 & E2)
    end.
    assert (Hw : pc_weight wk = 1%nat)
      by (unfold pc_weight; now rewrite Hpc).
    rewrite E2, E1, !weight_split, Hw.
    destruct found as [i |]; cbn [pc_weight w_pc].
    + rewrite (remaining_found m c Hsmall _ _ _ Hcur Hn).
      cbn [List.length]. lia.
    + destruct (remaining_none m c _ _ Hn) as [_ ->]. lia.
  - pose proof (Hsel wk i Hin Hpc) as Hi.
    apply selected_valid in Hi. apply Z.eqb_eq in Hi. rewrite Hi. simpl.
    destruct (function_pointer (test c i) (sh_world st)) as [r w'].
    eexists. split; [reflexivity |].
    unfold steps_left. simpl.
    match goal with
    | |- context [set_nth k ?x _] =>
        destruct (set_nth_split (workers st) k x wk Hk)
          as (l1 & l2 & E1 & E2)
    end.
    assert (Hw : pc_weight wk = 2%nat)
      by (unfold pc_weight; now rewrite Hpc).
    rewrite E2, E1, !weight_split, Hw.
    cbn [pc_weight w_pc]. lia.
Qed.

Lemma complete_schedule_exists (n : nat) :
  forall st,
    (steps_left m c st <= n)%nat ->
    scheduler_inv m c cur0 st ->
    exists sched st',
      run_schedule m c sched st = Some st'
      /\ forallb has_returned (workers st') = true.
Proof.
  induction n as [| n IH]; intros st Hn Hinv;
    destruct (forallb has_returned (workers st)) eqn:Hall;
    try (now exists [], st).
  - destruct (forallb_false_nth _ _ Hall) as (k & wk & Hk & Hwk).
    destruct (thread_step_progress k st wk Hinv Hk Hwk) as (st1 & _ & Hlt).
    lia.
  - destruct (forallb_false_nth _ _ Hall) as (k & wk & Hk & Hwk).
    destruct (thread_step_progress k st wk Hinv Hk Hwk)
      as (st1 & Hstep & Hlt).
    destruct (thread_step_inv m c Hsmall k st st1 Hinv Hstep) as [Hinv1 _].
    destruct (IH st1 ltac:(lia) Hinv1) as (sched & st' & Hrun & Hdone).
    exists (k :: sched), st'. simpl. rewrite Hstep. now split.
Qed.

(** The concurrent runner returns: there is a schedule under which all
    workers return. *)
Lemma multithreaded_run_completes (w : World) :
  exists sched o cur',
    _micro_tests_run_multithreaded m c cur0 sched w = Some (o, cur').
Proof.
  destruct (complete_schedule_exists _ (start_state m cur0 w) (le_n _)
              (start_state_inv m c Hcur0 w))
    as (sched & st & Hrun & Hdone).
  exists sched. unfold _micro_tests_run_multithreaded.
  rewrite Hrun, Hdone. eauto.
Qed.

End Completion.

(** ** The two defects of the concurrent runner, on the tests of the
    repository *)

Lemma deterministic_unit (c : Catalog unit) : deterministic c.
Proof. intros i [] []. reflexivity. Qed.

Lemma test_c_small : count test_c < 2 ^ 31.
Proof. reflexivity. Qed.

Lemma test_c_failing_small : count test_c_failing < 2 ^ 31.
Proof. reflexivity. Qed.

Lemma test_c_entry : 0 <= 0 <= count test_c.
Proof. now vm_compute. Qed.

Lemma test_c_failing_entry : 0 <= 0 <= count test_c_failing.
Proof. now vm_compute. Qed.

(** C1 (the code departs from the claim). With the suite filter
    [base_tests2] on the tests of [src/test.c], the only matching record
    is in slot 2.  The claim function finds it from cursor 0 and moves the
    cursor to 1, not past slot 2; so it finds it again from cursor 1 and
    from cursor 2, and only from cursor 3 on finds nothing.  In the first
    run of a process, which the cursor enters at 0, the callback of slot 2
    is invoked three times, under every schedule and with any number of
    workers, where the sequential runner invokes it once. *)
Theorem scheduler_claims_slot_again :
  let m := set_run_suite "base_tests2" (multithreaded_settings 1) in
  _micro_tests_get_next_test m test_c 0 = Some (Some 2%nat, 1)
  /\ _micro_tests_get_next_test m test_c 1 = Some (Some 2%nat, 2)
  /\ _micro_tests_get_next_test m test_c 2 = Some (Some 2%nat, 3)
  /\ _micro_tests_get_next_test m test_c 3 = Some (None, 3)
  /\ option_map (fun r => calls (trace (fst r)))
       (micro_tests_run
          ["./test"; "--multithreaded"; "--threads"; "1";
           "--suite"; "base_tests2"]%string
          test_c 0 [0; 0; 0; 0; 0; 0; 0]%nat tt)
     = Some [2; 2; 2]%nat
  /\ calls (trace (_micro_tests_run m test_c tt)) = [2]%nat
  /\ (forall (n : Z) (sched : list nat) (o : Outcome unit) (cur' : Z),
        1 <= n ->
        _micro_tests_run_multithreaded (set_thread_number n m) test_c 0
          sched tt = Some (o, cur') ->
        count_occ Nat.eq_dec (calls (trace o)) 2%nat = 3%nat).
Proof.
  intros m.
  repeat (split; [reflexivity |]).
  intros n sched o cur' Hn Hrun.
  destruct (multithreaded_calls (set_thread_number n m) test_c test_c_small
              test_c_entry sched tt o cur' Hn Hrun) as [Hperm _].
  assert (E : remaining (set_thread_number n m) test_c 0 = [2; 2; 2]%nat)
    by reflexivity.
  rewrite E in Hperm.
  rewrite (Permutation_count_occ Nat.eq_dec) in Hperm.
  now rewrite Hperm.
Qed.

(** C2 (the code departs from the claim). With the failing test of
    [src/test.c] enabled, the sequential runner returns 1, the number of
    failed tests, and the concurrent runner, in the first run of a process
    (the cursor at 0), returns -1, the sum of the returns not negated,
    under every schedule and with any number of workers.  With a filter
    that selects only that test, in slot 3, the concurrent runner invokes
    it four times and returns -4. *)
Theorem runners_disagree_on_failure_count :
  (forall n : Z,
      status (_micro_tests_run (multithreaded_settings n) test_c_failing tt)
      = 1)
  /\ (forall (n : Z) (sched : list nat) (o : Outcome unit) (cur' : Z),
        1 <= n ->
        _micro_tests_run_multithreaded (multithreaded_settings n)
          test_c_failing 0 sched tt = Some (o, cur') ->
        status o = -1)
  /\ option_map (fun r => status (fst r))
       (_micro_tests_run_multithreaded (multithreaded_settings 4)
          test_c_failing 0 [0; 1; 2; 3; 0; 1; 2; 3; 0; 1; 2; 3]%nat tt)
     = Some (-1)
  /\ option_map (fun r => status (fst r))
       (micro_tests_run ["./test"]%string test_c_failing 0 [] tt)
     = Some 1
  /\ option_map (fun r => status (fst r))
       (micro_tests_run ["./test"; "--multithreaded"]%string test_c_failing 0
          [0; 0; 0; 0; 0; 0; 0; 0; 0; 1; 2; 3]%nat tt)
     = Some (-1)
  /\ (forall n : Z,
        status (_micro_tests_run
                  (set_run_test "assert_should_fail" (multithreaded_settings n))
                  test_c_failing tt)
        = 1)
  /\ (forall (n : Z) (sched : list nat) (o : Outcome unit) (cur' : Z),
        1 <= n ->
        _micro_tests_run_multithreaded
          (set_run_test "assert_should_fail" (multithreaded_settings n))
          test_c_failing 0 sched tt = Some (o, cur') ->
        status o = -4).
Proof.
  split; [reflexivity |].
  split.
  { intros n sched o cur' Hn Hrun.
    now rewrite (multithreaded_status (multithreaded_settings n)
                   test_c_failing test_c_failing_small test_c_failing_entry
                   tt (deterministic_unit _) sched tt o cur' Hn Hrun). }
  repeat (split; [reflexivity |]).
  intros n sched o cur' Hn Hrun.
  now rewrite (multithreaded_status
                 (set_run_test "assert_should_fail" (multithreaded_settings n))
                 test_c_failing test_c_failing_small test_c_failing_entry
                 tt (deterministic_unit _) sched tt o cur' Hn Hrun).
Qed.

(** * Further properties *)

(** ** Name comparison *)

Lemma char_val_inj (x y : ascii) : char_val x = char_val y -> x = y.
Proof.
  unfold char_val. intros H.
  pose proof (N_ascii_bounded x) as Hx.
  pose proof (N_ascii_bounded y) as Hy.
  assert (E : N_of_ascii x = N_of_ascii y).
  { destruct (Z.ltb_spec (Z.of_N (N_of_ascii x)) 128),
             (Z.ltb_spec (Z.of_N (N_of_ascii y)) 128); lia. }
  rewrite <- (ascii_N_embedding x), <- (ascii_N_embedding y).
  now rewrite E.
Qed.

Lemma compare_bytes_range (a : list ascii) :
  forall b, compare_bytes a b = -1 \/ compare_bytes a b = 0
            \/ compare_bytes a b = 1.
Proof.
  induction a as [| x a IH]; intros [| y b]; simpl; auto.
  destruct (Ascii.eqb x y); [apply IH |].
  destruct (char_val x >? char_val y); auto.
Qed.

Lemma compare_bytes_swap (a : list ascii) :
  forall b, compare_bytes a b = -1 -> compare_bytes b a = 1.
Proof.
  induction a as [| x a IH]; intros [| y b]; simpl; try discriminate.
  rewrite (Ascii.eqb_sym y x).
  destruct (Ascii.eqb x y) eqn:E; [apply IH |].
  apply Ascii.eqb_neq in E.
  destruct (Z.gtb_spec (char_val x) (char_val y)); [discriminate |].
  intros _.
  destruct (Z.gtb_spec (char_val y) (char_val x)); [reflexivity |].
  exfalso. apply E. apply char_val_inj. lia.
Qed.

Lemma compare_bytes_prefix (a : list ascii) :
  forall x t, compare_bytes a (a ++ x :: t) = 1
              /\ compare_bytes (a ++ x :: t) a = 1.
Proof.
  induction a as [| y a IH]; intros x t; simpl; [now split |].
  rewrite Ascii.eqb_refl. apply IH.
Qed.

(** X1. On two strings [_micro_tests_strcmp] returns -1, 0 or 1; it
    returns 0 in one order exactly when it does in the other; and when it
    returns -1 in one order it returns 1 in the other. *)
Theorem strcmp_result_shape (a b : list ascii)
  (Ha : nul_free a) (Hb : nul_free b) :
  exists r r',
    _micro_tests_strcmp (a ++ [NUL]) (b ++ [NUL]) = Some r
    /\ _micro_tests_strcmp (b ++ [NUL]) (a ++ [NUL]) = Some r'
    /\ (r = -1 \/ r = 0 \/ r = 1)
    /\ (r = 0 <-> r' = 0)
    /\ (r = -1 -> r' = 1).
Proof.
  exists (compare_bytes a b), (compare_bytes b a).
  rewrite !strcmp_terminated by assumption.
  repeat split; trivial.
  - apply compare_bytes_range.
  - rewrite !compare_bytes_eq. now intros ->.
  - rewrite !compare_bytes_eq. now intros ->.
  - apply compare_bytes_swap.
Qed.

Lemma strcmp_result_shape_witness :
  nul_free (list_ascii_of_string "base_tests")
  /\ nul_free (list_ascii_of_string "base_tests2")
  /\ exists r r',
      _micro_tests_strcmp (cstr "base_tests") (cstr "base_tests2") = Some r
      /\ _micro_tests_strcmp (cstr "base_tests2") (cstr "base_tests") = Some r'
      /\ (r = -1 \/ r = 0 \/ r = 1)
      /\ (r = 0 <-> r' = 0)
      /\ (r = -1 -> r' = 1).
Proof.
  split; [reflexivity | split; [reflexivity |]].
  apply (strcmp_result_shape (list_ascii_of_string "base_tests")
           (list_ascii_of_string "base_tests2")); reflexivity.
Defined.

(** X2. When one string is a proper prefix of the other,
    [_micro_tests_strcmp] returns 1 whichever of the two comes first: the
    result tells that they differ, not which one is smaller. *)
Theorem strcmp_prefix_returns_one (a : list ascii) (x : ascii)
  (t : list ascii) (Ha : nul_free a) (Hx : nul_free (x :: t)) :
  _micro_tests_strcmp (a ++ [NUL]) ((a ++ x :: t) ++ [NUL]) = Some 1
  /\ _micro_tests_strcmp ((a ++ x :: t) ++ [NUL]) (a ++ [NUL]) = Some 1.
Proof.
  assert (Hb : nul_free (a ++ x :: t)) by (apply nul_free_app; now split).
  rewrite !strcmp_terminated by assumption.
  destruct (compare_bytes_prefix a x t) as [-> ->]. now split.
Qed.

Lemma strcmp_prefix_returns_one_witness :
  nul_free (list_ascii_of_string "base")
  /\ nul_free (list_ascii_of_string "_tests")
  /\ _micro_tests_strcmp (cstr "base") (cstr "base_tests") = Some 1
  /\ _micro_tests_strcmp (cstr "base_tests") (cstr "base") = Some 1.
Proof.
  split; [reflexivity | split; [reflexivity |]].
  apply (strcmp_prefix_returns_one (list_ascii_of_string "base") "_"%char
           (list_ascii_of_string "tests")); reflexivity.
Defined.

(** ** The argument parser *)

(** X3. Whatever the arguments, [micro_tests_parse_args] returns 0 having
    printed nothing, or returns -1 having printed a message; it returns no
    other value. *)
Theorem parse_args_silent_success_or_message (argv : list string) :
  let res := micro_tests_parse_args argv in
  (fst (fst res) = 0 /\ snd res = [])
  \/ (fst (fst res) = -1 /\ snd res <> [] /\ calls (snd res) = []).
Proof.
  intros res. subst res.
  destruct (micro_tests_parse_args argv) as [[r m] out] eqn:E. simpl.
  apply parse_args_result in E as [Hc [[-> ->] | [-> Hne]]]; auto.
Qed.

Lemma parse_args_composes_aux (prog : string) (pre post : list string)
  (m1 : MicroTests) (out : list event) :
  micro_tests_parse_args (prog :: pre) = (0, m1, out) ->
  micro_tests_parse_args (prog :: pre ++ post) = parse_loop post m1.
Proof.
  unfold micro_tests_parse_args. simpl tl. intros Hpre.
  exact (parse_loop_app _ _ _ _ _ _ (le_n _) Hpre).
Qed.

(** X4. Parsing composes: when the arguments [pre] parse to the end and
    give the settings [m1], parsing [pre] followed by [post] is parsing
    [post] from [m1]. *)
Theorem parse_args_composes (prog : string) (pre post : list string)
  (m1 : MicroTests) (out : list event)
  (Hpre : micro_tests_parse_args (prog :: pre) = (0, m1, out)) :
  micro_tests_parse_args (prog :: pre ++ post) = parse_loop post m1.
Proof.
  now apply (parse_args_composes_aux prog pre post m1 out).
Qed.

Lemma parse_args_composes_witness :
  micro_tests_parse_args ["./test"; "--suite"; "base_tests"]%string
  = (0, set_run_suite "base_tests" default_settings, [])
  /\ micro_tests_parse_args
       ["./test"; "--suite"; "base_tests"; "--quiet"; "--list"]%string
     = parse_loop ["--quiet"; "--list"]%string
         (set_run_suite "base_tests" default_settings).
Proof.
  split; [reflexivity |].
  apply (parse_args_composes "./test" ["--suite"; "base_tests"]%string
           ["--quiet"; "--list"]%string
           (set_run_suite "base_tests" default_settings) []).
  reflexivity.
Defined.

Lemma parse_loop_thread_number (n : nat) :
  forall args m m' out,
    (List.length args <= n)%nat ->
    0 < thread_number m ->
    parse_loop args m = (0, m', out) ->
    0 < thread_number m'.
Proof.
  induction n as [| n IH]; intros [| a rest] m m' out Hlen Hpos H;
    simpl in Hlen; try lia.
  - now injection H as <- _.
  - now injection H as <- _.
  - parse_cases a rest;
      try (eapply IH; [| | exact H]; [lia | exact Hpos]);
      try (destruct rest as [| v rest'];
           [discriminate H | simpl in Hlen]);
      try (eapply IH; [| | exact H]; [lia | exact Hpos]).
    + destruct (Z.leb_spec (atoi v) 0); [discriminate H |].
      eapply IH; [| | exact H]; [lia | simpl; lia].
    + discriminate H.
Qed.

(** X5. Settings that [micro_tests_parse_args] returns with 0 have a
    thread number above zero, so the test [thread_number > 0] that
    [micro_tests_run] makes before it runs multithreaded never fails: the
    flag [--multithreaded] alone decides. *)
Theorem parse_args_thread_number_positive (argv : list string)
  (m : MicroTests) (out : list event)
  (Hparse : micro_tests_parse_args argv = (0, m, out)) :
  0 < thread_number m
  /\ (run_multithreaded m && (thread_number m >? 0))%bool
     = run_multithreaded m.
Proof.
  assert (Hpos : 0 < thread_number m).
  { unfold micro_tests_parse_args in Hparse.
    apply (parse_loop_thread_number _ _ _ _ _ (le_n _)) in Hparse;
      [exact Hparse | simpl; lia]. }
  split; [exact Hpos |].
  destruct (Z.gtb_spec (thread_number m) 0); [| lia].
  apply andb_true_r.
Qed.

Lemma parse_args_thread_number_positive_witness :
  micro_tests_parse_args ["./test"; "--threads"; "8"; "--debug"]%string
  = (0, set_debug true (set_thread_number 8 default_settings), [])
  /\ 0 < thread_number (set_debug true (set_thread_number 8 default_settings)).
Proof.
  split; [reflexivity |].
  apply (parse_args_thread_number_positive
           ["./test"; "--threads"; "8"; "--debug"]%string
           (set_debug true (set_thread_number 8 default_settings)) []).
  reflexivity.
Defined.

Lemma parse_loop_unrecognized (a : string) (rest : list string)
  (m : MicroTests) :
  recognized a = false ->
  parse_loop (a :: rest) m
  = (-1, m,
     [Print stdout ("Unrecognized argument: " ++ a ++ nl);
      Print stdout ("Try --help or -h" ++ nl)]).
Proof.
  unfold recognized. rewrite !orb_false_iff.
  intros [[[[[[[[[H1 H2] H3] H4] H5] H6] H7] H8] H9] H10].
  rewrite parse_loop_cons, H1, H2, H3, H4, H5, H6, H7, H8, H9, H10.
  reflexivity.
Qed.

(** X6. An argument that is none of the options, met after arguments that
    parse, makes the parser return -1 with two lines on the standard
    output, whatever comes after it, [--help] included; [micro_tests_run]
    then returns 1, invokes no callback and leaves the cursor alone. *)
Theorem unrecognized_argument_aborts {World : Type} (prog a : string)
  (pre rest : list string) (m1 : MicroTests) (out : list event)
  (c : Catalog World) (cur : Z) (sched : list nat) (w : World)
  (Hpre : micro_tests_parse_args (prog :: pre) = (0, m1, out))
  (Ha : recognized a = false) :
  let msg := [Print stdout ("Unrecognized argument: " ++ a ++ nl);
              Print stdout ("Try --help or -h" ++ nl)] in
  micro_tests_parse_args (prog :: pre ++ a :: rest) = (-1, m1, msg)
  /\ micro_tests_run (prog :: pre ++ a :: rest) c cur sched w
     = Some ({| status := 1; trace := msg; world := w |}, cur).
Proof.
  intros msg.
  assert (E : micro_tests_parse_args (prog :: pre ++ a :: rest)
              = (-1, m1, msg)).
  { rewrite (parse_args_composes_aux prog pre (a :: rest) m1 out Hpre).
    now apply parse_loop_unrecognized. }
  split; [exact E |].
  unfold micro_tests_run. now rewrite E.
Qed.

Lemma unrecognized_argument_aborts_witness :
  micro_tests_parse_args ["./test"; "--quiet"]%string
  = (0, set_quiet true default_settings, [])
  /\ recognized "--thread" = false
  /\ micro_tests_run ["./test"; "--quiet"; "--thread"; "--help"]%string
       test_c 0 [] tt
     = Some ({| status := 1;
                trace :=
                  [Print stdout ("Unrecognized argument: --thread" ++ nl);
                   Print stdout ("Try --help or -h" ++ nl)];
                world := tt |}, 0).
Proof.
  split; [reflexivity | split; [reflexivity |]].
  apply (unrecognized_argument_aborts "./test" "--thread"
           ["--quiet"%string] ["--help"%string]
           (set_quiet true default_settings) [] test_c 0 [] tt);
    reflexivity.
Defined.

(** ** The sequential runner and listing mode *)

Lemma count_small_section {World : Type} (c : Catalog World) :
  0 <= __micro_tests_stop c - __micro_tests_start c < sizeof_MicroTest ->
  count c = 0.
Proof.
  unfold count, to_size_t, sizeof_MicroTest. intros H. simpl in H.
  rewrite Z.mod_small
    by (change (2 ^ 64) with 18446744073709551616; lia).
  apply Z.div_small. simpl. lia.
Qed.

(** X7. On a section that holds no complete record (its end is less than
    the size of a record after its start) nothing is executed or listed:
    the sequential runner returns 0, leaves the world as it was and writes
    only the summary of zero failed tests (nothing in quiet mode), listing
    mode writes nothing, and the claim function returns [NULL] without
    moving the cursor. *)
Theorem empty_section_runs_nothing {World : Type} (m : MicroTests)
  (c : Catalog World) (w : World)
  (Hsize : 0 <= __micro_tests_stop c - __micro_tests_start c
           < sizeof_MicroTest) :
  _micro_tests_run m c w
  = {| status := 0;
       trace := if quiet m then []
                else [Print stdout
                        (nl ++ "Tests done: 0 tests failed" ++ nl ++ nl)];
       world := w |}
  /\ micro_tests_show_list m c = []
  /\ _micro_tests_get_next_test m c 0 = Some (None, 0).
Proof.
  pose proof (count_small_section c Hsize) as Hc.
  unfold _micro_tests_run, micro_tests_show_list, _micro_tests_get_next_test.
  rewrite Hc. simpl.
  split; [| split; [reflexivity |]].
  - now destruct (quiet m).
  - unfold to_size_t. now rewrite Hc.
Qed.

Lemma empty_section_runs_nothing_witness :
  let c := {| __micro_tests_start := 0x4040;
              __micro_tests_stop := 0x4040 + 20;
              test := fun _ => declared "s" "t" 1 (-1) |} in
  0 <= __micro_tests_stop c - __micro_tests_start c < sizeof_MicroTest
  /\ _micro_tests_run default_settings c tt
     = {| status := 0;
          trace := [Print stdout
                      (nl ++ "Tests done: 0 tests failed" ++ nl ++ nl)];
          world := tt |}.
Proof.
  intros c. split; [unfold sizeof_MicroTest; simpl; lia |].
  apply (empty_section_runs_nothing default_settings c tt).
  unfold sizeof_MicroTest. simpl. lia.
Defined.

(** X8. Listing mode prints, in the same order, one line for each test the
    sequential runner invokes with the same settings, and nothing else. *)
Theorem listing_shows_what_runs {World : Type} (m : MicroTests)
  (c : Catalog World) (w : World) :
  micro_tests_show_list m c
  = map (fun j => list_line (test c j))
      (calls (trace (_micro_tests_run m c w)))
  /\ List.length (micro_tests_show_list m c)
     = List.length (calls (trace (_micro_tests_run m c w))).
Proof.
  rewrite micro_tests_show_list_spec, micro_tests_run_calls.
  split; [reflexivity | apply length_map].
Qed.

Lemma filter_andb {A : Type} (f g : A -> bool) (l : list A) :
  filter (fun x => (g x && f x)%bool) l = filter f (filter g l).
Proof.
  induction l as [| x l IH]; simpl; [reflexivity |].
  destruct (g x); simpl; [| exact IH].
  destruct (f x); now rewrite IH.
Qed.

(** X9. Filters only take tests away: the tests the sequential runner
    invokes under the settings [m] are those it invokes without any filter
    whose suite and test names pass the filters of [m], in the same
    order. *)
Theorem filters_only_restrict {World : Type} (m : MicroTests)
  (c : Catalog World) (w w' : World) :
  let passes i :=
    (name_passes (run_suite m) (test_suite (test c i))
     && name_passes (run_test m) (test_name (test c i)))%bool in
  calls (trace (_micro_tests_run m c w))
  = filter passes (calls (trace (_micro_tests_run (without_filters m) c w')))
  /\ incl (calls (trace (_micro_tests_run m c w)))
       (calls (trace (_micro_tests_run (without_filters m) c w'))).
Proof.
  intros passes.
  assert (E : calls (trace (_micro_tests_run m c w))
              = filter passes
                  (calls (trace (_micro_tests_run (without_filters m) c w')))).
  { rewrite !micro_tests_run_calls. unfold selected_indices.
    rewrite <- filter_andb. apply filter_ext. intros i.
    unfold selected, passes.
    cbn [without_filters run_suite run_test name_passes].
    rewrite !andb_true_r. symmetry. apply andb_assoc. }
  split; [exact E |].
  rewrite E. apply incl_filter.
Qed.

Lemma quiet_lines_not_on_stdout {World : Type} (m : MicroTests)
  (c : Catalog World) (rs : list (nat * Z)) :
  quiet m = true ->
  forallb not_on_stdout
    (flat_map (fun ir => Call (fst ir)
                           :: outcome_line m (test c (fst ir)) (snd ir)) rs)
  = true.
Proof.
  intros Hq. induction rs as [| [i r] rs IH]; simpl; [reflexivity |].
  rewrite forallb_app, IH, andb_true_r.
  unfold outcome_line. rewrite Hq. now destruct (r <? 0).
Qed.

(** X10. Quiet mode changes what is written and nothing else: with the
    flag set or cleared the sequential runner invokes the same callbacks,
    returns the same value and leaves the same world; and with it set,
    nothing goes to the standard output. *)
Theorem quiet_changes_output_only {World : Type} (m : MicroTests)
  (c : Catalog World) (w : World) (b : bool) :
  calls (trace (_micro_tests_run (set_quiet b m) c w))
  = calls (trace (_micro_tests_run m c w))
  /\ status (_micro_tests_run (set_quiet b m) c w)
     = status (_micro_tests_run m c w)
  /\ world (_micro_tests_run (set_quiet b m) c w)
     = world (_micro_tests_run m c w)
  /\ forallb not_on_stdout (trace (_micro_tests_run (set_quiet true m) c w))
     = true.
Proof.
  assert (Hsel : forall b', selected_indices (set_quiet b' m) c
                            = selected_indices m c) by reflexivity.
  rewrite !micro_tests_run_calls, !micro_tests_run_spec, !Hsel.
  destruct (exec_in_order c (selected_indices m c) w) as [rs w1]. simpl.
  repeat split; trivial.
  rewrite app_nil_r. now apply quiet_lines_not_on_stdout.
Qed.

Lemma failures_zero_iff (rs : list (nat * Z)) :
  Forall (fun ir => snd ir = 0 \/ snd ir = -1) rs ->
  failures rs = 0 <-> Forall (fun ir => snd ir = 0) rs.
Proof.
  unfold failures.
  induction rs as [| [i r] rs IH]; intros Hall; simpl.
  - split; [constructor | reflexivity].
  - apply Forall_cons_iff in Hall as [Hr Hrest]. simpl in Hr.
    specialize (IH Hrest).
    destruct Hr as [-> | ->]; simpl.
    + rewrite IH. split.
      * intros H. now constructor.
      * intros H. now apply Forall_cons_iff in H as [_ H].
    + split; [lia |].
      intros H. apply Forall_cons_iff in H as [H _]. discriminate H.
Qed.

(** X11. When every callback invoked returns 0 or -1, as [TEST_SUCCESS],
    [TEST_FAILED] and the assertion macros make it, and fewer than [2 ^ 31]
    of them fail, the sequential runner returns the number of tests that
    failed; it returns 0 exactly when every test invoked returned 0. *)
Theorem sequential_status_counts_failures {World : Type} (m : MicroTests)
  (c : Catalog World) (w : World)
  (Hprotocol :
     Forall (fun ir => snd ir = 0 \/ snd ir = -1)
       (fst (exec_in_order c (selected_indices m c) w)))
  (Hfew : failures (fst (exec_in_order c (selected_indices m c) w)) < 2 ^ 31) :
  let rs := fst (exec_in_order c (selected_indices m c) w) in
  status (_micro_tests_run m c w) = failures rs
  /\ 0 <= status (_micro_tests_run m c w)
  /\ (status (_micro_tests_run m c w) = 0
      <-> Forall (fun ir => snd ir = 0) rs).
Proof.
  intros rs.
  pose proof (sequential_status_protocol m c w Hprotocol Hfew) as E.
  fold rs in E. rewrite E.
  split; [reflexivity |]. split.
  - unfold failures. lia.
  - now apply failures_zero_iff.
Qed.

Lemma sequential_status_counts_failures_witness :
  let rs := fst (exec_in_order test_c_failing
                   (selected_indices default_settings test_c_failing) tt) in
  Forall (fun ir => snd ir = 0 \/ snd ir = -1) rs
  /\ failures rs < 2 ^ 31
  /\ status (_micro_tests_run default_settings test_c_failing tt) = 1.
Proof.
  intros rs.
  assert (H1 : Forall (fun ir => snd ir = 0 \/ snd ir = -1) rs).
  { vm_compute. repeat (apply Forall_cons; [auto |]). apply Forall_nil. }
  assert (H2 : failures rs < 2 ^ 31) by reflexivity.
  split; [exact H1 | split; [exact H2 |]].
  destruct (sequential_status_counts_failures default_settings
              test_c_failing tt H1 H2) as (E & _ & _).
  rewrite E. reflexivity.
Defined.

(** ** The bounds of the section *)

Section Bounds.

Context {World : Type}.
Variable m : MicroTests.
Variables c c' : Catalog World.
Hypothesis Hstart : __micro_tests_start c = __micro_tests_start c'.
Hypothesis Hstop : __micro_tests_stop c = __micro_tests_stop c'.
Hypothesis Hslots : forall j, Z.of_nat j < count c -> test c j = test c' j.

Lemma bounds_count : count c = count c'.
Proof. unfold count. now rewrite Hstart, Hstop. Qed.

Lemma bounds_run_loop (n : nat) :
  forall i st,
    Z.of_nat (i + n) <= count c ->
    run_loop m c n i st = run_loop m c' n i st.
Proof.
  induction n as [| n IH]; intros i st Hle; simpl; [reflexivity |].
  replace (run_body m c' i st) with (run_body m c i st)
    by (unfold run_body; now rewrite (Hslots i) by lia).
  apply IH. lia.
Qed.

Lemma bounds_list_loop (n : nat) :
  forall i tr,
    Z.of_nat (i + n) <= count c ->
    list_loop m c n i tr = list_loop m c' n i tr.
Proof.
  induction n as [| n IH]; intros i tr Hle; simpl; [reflexivity |].
  replace (list_body m c' i tr) with (list_body m c i tr)
    by (unfold list_body; now rewrite (Hslots i) by lia).
  apply IH. lia.
Qed.

Lemma count_upper : count c < 2 ^ 59.
Proof.
  unfold count, to_size_t, sizeof_MicroTest.
  change (4 + 8 + 8 + 8 + 8 + 4 + 8) with 48.
  change (2 ^ 64) with 18446744073709551616.
  change (2 ^ 59) with 576460752303423488.
  pose proof (Z.mod_pos_bound
                (__micro_tests_stop c - __micro_tests_start c)
                18446744073709551616 ltac:(lia)) as H.
  apply Z.div_lt_upper_bound; lia.
Qed.

(** The loop of the claim function compares well: an index that passes
    the test against [count] is an index of the section. *)
Lemma index_in_section (i : Z) :
  in_int i -> to_size_t i < count c -> 0 <= i < count c.
Proof.
  unfold in_int, to_size_t. intros Hi Hlt.
  pose proof count_upper as Hc.
  change (2 ^ 31) with 2147483648 in Hi.
  change (2 ^ 59) with 576460752303423488 in Hc.
  destruct (Z.neg_nonneg_cases i) as [Hneg | Hpos].
  - exfalso.
    rewrite <- (Z_mod_plus_full i 1 (2 ^ 64)) in Hlt.
    rewrite Z.mod_small in Hlt;
      change (2 ^ 64) with 18446744073709551616 in *; lia.
  - rewrite Z.mod_small in Hlt;
      change (2 ^ 64) with 18446744073709551616 in *; lia.
Qed.

Lemma bounds_next_loop (fuel : nat) :
  forall i cur,
    in_int i ->
    next_loop m c fuel i cur = next_loop m c' fuel i cur.
Proof.
  induction fuel as [| fuel IH]; intros i cur Hi; simpl; [reflexivity |].
  rewrite <- bounds_count.
  destruct (Z.ltb_spec (to_size_t i) (count c)) as [Hlt | _];
    [| reflexivity].
  pose proof (index_in_section i Hi Hlt) as Hr.
  rewrite <- (Hslots (Z.to_nat i)) by lia.
  now rewrite !IH by apply wrap_int_range.
Qed.

End Bounds.

(** X12. No function reads a slot at or after index [count]: two sections
    with the same bounds and the same records below [count] give the same
    sequential run, the same listing, and the same answer of the claim
    function from every cursor value. *)
Theorem slots_beyond_count_not_read {World : Type} (m : MicroTests)
  (c c' : Catalog World)
  (Hstart : __micro_tests_start c = __micro_tests_start c')
  (Hstop : __micro_tests_stop c = __micro_tests_stop c')
  (Hslots : forall j, Z.of_nat j < count c -> test c j = test c' j) :
  (forall w, _micro_tests_run m c w = _micro_tests_run m c' w)
  /\ micro_tests_show_list m c = micro_tests_show_list m c'
  /\ (forall cur, in_int cur ->
                  _micro_tests_get_next_test m c cur
                  = _micro_tests_get_next_test m c' cur).
Proof.
  pose proof (bounds_count c c' Hstart Hstop) as Hc.
  assert (Hcount : 0 <= count c).
  { unfold count, to_size_t, sizeof_MicroTest.
    apply Z.div_pos; [| simpl; lia].
    apply Z.mod_pos_bound. now change (2 ^ 64) with 18446744073709551616. }
  split; [| split].
  - intros w. unfold _micro_tests_run. rewrite <- Hc.
    now rewrite (bounds_run_loop m c c' Hslots) by lia.
  - unfold micro_tests_show_list. rewrite <- Hc.
    now rewrite (bounds_list_loop m c c' Hslots) by lia.
  - intros cur Hcur. unfold _micro_tests_get_next_test. rewrite <- Hc.
    now apply bounds_next_loop.
Qed.

Lemma slots_beyond_count_not_read_witness :
  let c' := {| __micro_tests_start := __micro_tests_start test_c;
               __micro_tests_stop := __micro_tests_stop test_c;
               test := fun j => if (j <? 3)%nat then test test_c j
                                else declared "late" "never_run" 40 (-1) |} in
  (forall j, Z.of_nat j < count test_c -> test test_c j = test c' j)
  /\ forall w, _micro_tests_run default_settings test_c w
               = _micro_tests_run default_settings c' w.
Proof.
  intros c'.
  assert (H : forall j, Z.of_nat j < count test_c -> test test_c j = test c' j).
  { intros j Hj. change (count test_c) with 3 in Hj. simpl.
    destruct (Nat.ltb_spec j 3); [reflexivity | lia]. }
  split; [exact H |].
  apply (slots_beyond_count_not_read default_settings test_c c'
           eq_refl eq_refl H).
Defined.

(** ** What the claim function returns *)

Section FirstSelected.

Context {World : Type}.
Variable m : MicroTests.
Variable c : Catalog World.

Lemma first_selected_some (n : nat) :
  forall i j,
    first_selected m c n i = Some j ->
    selected m (test c j) = true
    /\ (i <= j < i + n)%nat
    /\ (forall k, (i <= k < j)%nat -> selected m (test c k) = false).
Proof.
  induction n as [| n IH]; intros i j H; simpl in H; [discriminate |].
  destruct (selected m (test c i)) eqn:Hsel.
  - injection H as <-. repeat split; trivial; lia.
  - apply IH in H as (Hj & Hr & Hmin).
    repeat split; trivial; try lia.
    intros k Hk. destruct (Nat.eq_dec k i) as [-> | Hne]; [exact Hsel |].
    apply Hmin. lia.
Qed.

Lemma first_selected_none (n : nat) :
  forall i,
    first_selected m c n i = None ->
    forall k, (i <= k < i + n)%nat -> selected m (test c k) = false.
Proof.
  induction n as [| n IH]; intros i H k Hk; simpl in H; [lia |].
  destruct (selected m (test c i)) eqn:Hsel; [discriminate |].
  destruct (Nat.eq_dec k i) as [-> | Hne]; [exact Hsel |].
  apply (IH (S i) H). lia.
Qed.

Hypothesis Hsmall : count c < 2 ^ 31.

Lemma next_loop_first_selected (fuel : nat) :
  forall i cur,
    0 <= i <= count c -> (Z.to_nat (count c - i) < fuel)%nat ->
    next_loop m c fuel i cur
    = match first_selected m c (Z.to_nat (count c - i)) (Z.to_nat i) with
      | Some j => Some (Some j, wrap_int (cur + 1))
      | None => Some (None, cur)
      end.
Proof.
  induction fuel as [| fuel IH]; intros i cur Hi Hfuel; [lia |].
  rewrite next_loop_step, (to_size_t_index c Hsmall) by assumption.
  destruct (Z.ltb_spec i (count c)) as [Hlt | Hge].
  - replace (Z.to_nat (count c - i))
      with (S (Z.to_nat (count c - (i + 1)))) by lia.
    simpl.
    destruct (selected m (test c (Z.to_nat i))); [reflexivity |].
    rewrite (wrap_int_next c Hsmall) by lia.
    rewrite IH by lia.
    now replace (S (Z.to_nat i)) with (Z.to_nat (i + 1)) by lia.
  - now replace (Z.to_nat (count c - i)) with 0%nat by lia.
Qed.

Lemma get_next_test_first_selected (cur : Z) :
  0 <= cur <= count c ->
  _micro_tests_get_next_test m c cur
  = match first_selected m c (Z.to_nat (count c - cur)) (Z.to_nat cur) with
    | Some j => Some (Some j, cur + 1)
    | None => Some (None, cur)
    end.
Proof.
  intros Hcur. unfold _micro_tests_get_next_test.
  rewrite next_loop_first_selected by lia.
  destruct (first_selected m c _ _) as [j |] eqn:E; [| reflexivity].
  apply first_selected_some in E as (_ & Hr & _).
  rewrite (wrap_int_next c Hsmall) by lia. reflexivity.
Qed.

Lemma remaining_unfold (cur : Z) :
  0 <= cur <= count c ->
  remaining m c cur
  = match first_selected m c (Z.to_nat (count c - cur)) (Z.to_nat cur) with
    | Some j => j :: remaining m c (cur + 1)
    | None => []
    end.
Proof.
  intros Hcur.
  pose proof (get_next_test_first_selected cur Hcur) as E.
  destruct (first_selected m c _ _) as [j |].
  - now apply (remaining_found m c Hsmall).
  - now apply (remaining_none m c) in E as [E _].
Qed.

Lemma remaining_selected (n : nat) :
  forall cur i,
    n = Z.to_nat (count c - cur) -> 0 <= cur <= count c ->
    In i (remaining m c cur) ->
    selected m (test c i) = true /\ cur <= Z.of_nat i < count c.
Proof.
  induction n as [| n IH]; intros cur i Hn Hcur Hin;
    rewrite remaining_unfold in Hin by assumption.
  - now replace (Z.to_nat (count c - cur)) with 0%nat in Hin by lia.
  - destruct (first_selected m c _ _) as [j |] eqn:E; [| contradiction].
    apply first_selected_some in E as (Hj & Hr & _).
    destruct Hin as [<- | Hin].
    + split; [exact Hj | lia].
    + apply IH in Hin; [| lia | lia]. split; [tauto | lia].
Qed.

Lemma remaining_covers (n : nat) :
  forall cur i,
    n = Z.to_nat (Z.of_nat i - cur) -> 0 <= cur <= Z.of_nat i ->
    Z.of_nat i < count c ->
    selected m (test c i) = true ->
    In i (remaining m c cur).
Proof.
  induction n as [| n IH]; intros cur i Hn Hcur Hi Hsel;
    rewrite remaining_unfold by lia;
    destruct (first_selected m c _ _) as [j |] eqn:E.
  - apply first_selected_some in E as (_ & Hr & Hmin). left.
    destruct (Nat.eq_dec j i) as [-> | Hne]; [reflexivity |].
    rewrite Hmin in Hsel by lia. discriminate.
  - apply first_selected_none with (k := i) in E; [congruence | lia].
  - apply first_selected_some in E as (_ & Hr & _). right.
    apply IH; trivial; lia.
  - apply first_selected_none with (k := i) in E; [congruence | lia].
Qed.

End FirstSelected.

(** X13. From a cursor inside the section, the claim function returns the
    first valid matching slot at or after the cursor and adds one to the
    cursor; when there is no such slot it returns [NULL] and leaves the
    cursor alone.  (The section has fewer than [2 ^ 31] slots, so that the
    cursor, an [int], can index it.) *)
Theorem claim_returns_first_selected {World : Type} (m : MicroTests)
  (c : Catalog World) (cur : Z)
  (Hsmall : count c < 2 ^ 31) (Hcur : 0 <= cur <= count c) :
  (forall j cur',
      _micro_tests_get_next_test m c cur = Some (Some j, cur') <->
      (selected m (test c j) = true
       /\ cur <= Z.of_nat j < count c
       /\ (forall k, cur <= Z.of_nat k < Z.of_nat j ->
                     selected m (test c k) = false)
       /\ cur' = cur + 1))
  /\ (forall cur',
        _micro_tests_get_next_test m c cur = Some (None, cur') <->
        ((forall k, cur <= Z.of_nat k < count c ->
                    selected m (test c k) = false)
         /\ cur' = cur)).
Proof.
  rewrite (get_next_test_first_selected m c Hsmall cur Hcur).
  destruct (first_selected m c _ _) as [j0 |] eqn:E.
  - apply first_selected_some in E as (Hj & Hr & Hmin).
    split.
    + intros j cur'. split.
      * intros [= <- <-]. repeat split; trivial; try lia.
        intros k Hk. apply Hmin. lia.
      * intros (Hsel & Hrange & Hmin' & ->).
        assert (j = j0).
        { destruct (Nat.lt_trichotomy j j0) as [Hlt | [-> | Hgt]]; trivial.
          - rewrite Hmin in Hsel by lia. discriminate.
          - rewrite Hmin' in Hj by lia. discriminate. }
        now subst.
    + intros cur'. split; [discriminate |].
      intros [Hnone _]. rewrite Hnone in Hj by lia. discriminate.
  - pose proof (first_selected_none m c _ _ E) as Hnone.
    split.
    + intros j cur'. split; [discriminate |].
      intros (Hsel & Hrange & _). rewrite Hnone in Hsel by lia. discriminate.
    + intros cur'. split.
      * intros [= <-]. split; [| reflexivity].
        intros k Hk. apply Hnone. lia.
      * now intros [_ ->].
Qed.

Lemma claim_returns_first_selected_witness :
  count test_c_padded < 2 ^ 31
  /\ 0 <= 1 <= count test_c_padded
  /\ (_micro_tests_get_next_test default_settings test_c_padded 1
      = Some (Some 2%nat, 2) <->
      (selected default_settings (test test_c_padded 2) = true
       /\ 1 <= Z.of_nat 2 < count test_c_padded
       /\ (forall k, 1 <= Z.of_nat k < Z.of_nat 2 ->
                     selected default_settings (test test_c_padded k) = false)
       /\ 2 = 1 + 1)).
Proof.
  assert (H1 : count test_c_padded < 2 ^ 31) by reflexivity.
  assert (H2 : 0 <= 1 <= count test_c_padded)
    by (change (count test_c_padded) with 3; lia).
  split; [exact H1 | split; [exact H2 |]].
  apply (claim_returns_first_selected default_settings test_c_padded 1 H1 H2).
Defined.

(** ** What the concurrent runner invokes *)

(** X14. Under every schedule and with any number of workers, a complete
    concurrent run entered with the cursor at [cur] invokes the callbacks
    of selected slots at or after index [cur] only, and invokes the
    callback of every such slot at least once.  In the first run of a
    process the cursor is 0 and every selected slot of the section is
    invoked; a run entered with the cursor at [count] invokes nothing. *)
Theorem concurrent_invokes_all_selected {World : Type} (m : MicroTests)
  (c : Catalog World) (cur : Z) (sched : list nat) (w : World)
  (o : Outcome World) (cur' : Z)
  (Hsmall : count c < 2 ^ 31)
  (Hcur : 0 <= cur <= count c)
  (Hn : 1 <= thread_number m)
  (Hrun : _micro_tests_run_multithreaded m c cur sched w = Some (o, cur')) :
  forall i,
    In i (calls (trace o))
    <-> (cur <= Z.of_nat i < count c /\ selected m (test c i) = true).
Proof.
  intros i.
  destruct (multithreaded_calls m c Hsmall Hcur sched w o cur' Hn Hrun)
    as [Hperm _].
  split.
  - intros Hin. apply (Permutation_in _ Hperm) in Hin.
    apply (remaining_selected m c Hsmall _ cur i eq_refl Hcur) in Hin.
    tauto.
  - intros [Hi Hsel]. apply (Permutation_in _ (Permutation_sym Hperm)).
    apply (remaining_covers m c Hsmall _ cur i eq_refl); trivial; lia.
Qed.

Lemma concurrent_invokes_all_selected_witness :
  let m := set_run_suite "base_tests2" (multithreaded_settings 2) in
  let sched := [0; 1; 0; 1; 0; 0; 0; 1]%nat in
  count test_c < 2 ^ 31
  /\ 0 <= 0 <= count test_c
  /\ 1 <= thread_number m
  /\ (exists o cur',
         _micro_tests_run_multithreaded m test_c 0 sched tt = Some (o, cur')
         /\ (In 2%nat (calls (trace o))
             <-> (0 <= Z.of_nat 2 < count test_c
                  /\ selected m (test test_c 2) = true))).
Proof.
  intros m sched.
  assert (H1 : count test_c < 2 ^ 31) by reflexivity.
  assert (H2 : 1 <= thread_number m) by (simpl; lia).
  split; [exact H1 | split; [exact test_c_entry | split; [exact H2 |]]].
  assert (Ho : exists r,
             _micro_tests_run_multithreaded m test_c 0 sched tt = Some r)
    by (vm_compute; eexists; reflexivity).
  destruct Ho as [[o cur'] E].
  exists o, cur'. split; [exact E |].
  apply (concurrent_invokes_all_selected m test_c 0 sched tt o cur'
           H1 test_c_entry H2 E).
Defined.

Lemma filter_none {A : Type} (f : A -> bool) (l : list A) :
  (forall x, In x l -> f x = false) -> filter f l = [].
Proof.
  induction l as [| x l IH]; intros H; simpl; [reflexivity |].
  rewrite (H x) by now left. apply IH. intros y Hy. apply H. now right.
Qed.

Lemma remaining_gap_free {World : Type} (m : MicroTests) (c : Catalog World)
  (Hsmall : count c < 2 ^ 31) (Hgap : gap_free m c) (n : nat) :
  forall cur,
    n = Z.to_nat (count c - cur) -> 0 <= cur <= count c ->
    remaining m c cur
    = filter (fun i => selected m (test c i)) (seq (Z.to_nat cur) n).
Proof.
  induction n as [| n IH]; intros cur Hn Hcur;
    rewrite (remaining_unfold m c Hsmall) by assumption; rewrite <- Hn.
  - reflexivity.
  - simpl.
    destruct (selected m (test c (Z.to_nat cur))) eqn:Hsel.
    + f_equal. rewrite (IH (cur + 1)) by lia.
      now replace (Z.to_nat (cur + 1)) with (S (Z.to_nat cur)) by lia.
    + assert (Hnone : forall k, (Z.to_nat cur < k)%nat ->
                                Z.of_nat k < count c ->
                                selected m (test c k) = false).
      { intros k Hk Hkc.
        destruct (selected m (test c k)) eqn:Hk'; [| reflexivity].
        rewrite (Hgap _ k Hk Hkc Hk') in Hsel. discriminate. }
      destruct (first_selected m c n (S (Z.to_nat cur))) as [j |] eqn:E.
      * apply first_selected_some in E as (Hj & Hr & _).
        rewrite Hnone in Hj by lia. discriminate.
      * symmetry. apply filter_none. intros k Hk.
        apply in_seq in Hk. apply Hnone; lia.
Qed.

(** X15. When no slot that is not selected lies before a selected one (no
    padding and no filtered-out test before a test to run), a complete
    concurrent run entered with the cursor at [cur] invokes, under every
    schedule, the callbacks of the selected slots from index [cur] on,
    each of them once.  Entered with the cursor at 0, as the first run of
    a process is, it invokes exactly the callbacks the sequential runner
    invokes. *)
Theorem concurrent_once_when_gap_free {World : Type} (m : MicroTests)
  (c : Catalog World) (cur : Z) (sched : list nat) (w w' : World)
  (o : Outcome World) (cur' : Z)
  (Hsmall : count c < 2 ^ 31)
  (Hcur : 0 <= cur <= count c)
  (Hgap : gap_free m c)
  (Hn : 1 <= thread_number m)
  (Hrun : _micro_tests_run_multithreaded m c cur sched w = Some (o, cur')) :
  Permutation (calls (trace o))
    (filter (fun i => selected m (test c i))
       (seq (Z.to_nat cur) (Z.to_nat (count c - cur))))
  /\ NoDup (calls (trace o))
  /\ (cur = 0 ->
      Permutation (calls (trace o)) (calls (trace (_micro_tests_run m c w')))).
Proof.
  destruct (multithreaded_calls m c Hsmall Hcur sched w o cur' Hn Hrun)
    as [Hperm _].
  rewrite (remaining_gap_free m c Hsmall Hgap _ cur eq_refl Hcur) in Hperm.
  split; [exact Hperm |]. split.
  - apply (Permutation_NoDup (Permutation_sym Hperm)).
    apply NoDup_filter, seq_NoDup.
  - intros ->. rewrite Z.sub_0_r in Hperm.
    change (Z.to_nat 0) with 0%nat in Hperm.
    rewrite micro_tests_run_calls. exact Hperm.
Qed.

Lemma test_c_gap_free (n : Z) : gap_free (multithreaded_settings n) test_c.
Proof.
  intros i j Hij Hj _. change (count test_c) with 3 in Hj.
  destruct i as [| [| [| i]]]; try reflexivity; lia.
Qed.

Lemma concurrent_once_when_gap_free_witness :
  let m := multithreaded_settings 2 in
  let sched := [0; 1; 0; 1; 0; 0; 0; 1]%nat in
  count test_c < 2 ^ 31
  /\ 0 <= 0 <= count test_c
  /\ gap_free m test_c
  /\ 1 <= thread_number m
  /\ (exists o cur',
         _micro_tests_run_multithreaded m test_c 0 sched tt = Some (o, cur')
         /\ NoDup (calls (trace o))).
Proof.
  intros m sched.
  assert (H1 : count test_c < 2 ^ 31) by reflexivity.
  assert (H3 : 1 <= thread_number m) by (simpl; lia).
  split; [exact H1 |]. split; [exact test_c_entry |].
  split; [exact (test_c_gap_free 2) | split; [exact H3 |]].
  assert (Ho : exists r,
             _micro_tests_run_multithreaded m test_c 0 sched tt = Some r)
    by (vm_compute; eexists; reflexivity).
  destruct Ho as [[o cur'] E].
  exists o, cur'. split; [exact E |].
  apply (concurrent_once_when_gap_free m test_c 0 sched tt tt o cur'
           H1 test_c_entry (test_c_gap_free 2) H3 E).
Defined.

Lemma remaining_suffix {World : Type} (m : MicroTests) (c : Catalog World)
  (Hsmall : count c < 2 ^ 31) (j : nat)
  (Hj : Z.of_nat j < count c) (Hsel : selected m (test c j) = true)
  (n : nat) :
  forall cur k,
    n = Z.to_nat (k - cur) -> 0 <= cur <= k -> k <= Z.of_nat j ->
    exists l, remaining m c cur = l ++ remaining m c k.
Proof.
  induction n as [| n IH]; intros cur k Hn Hcur Hk.
  - exists []. simpl. f_equal. lia.
  - rewrite (remaining_unfold m c Hsmall) by lia.
    destruct (first_selected m c _ _) as [j0 |] eqn:E.
    + destruct (IH (cur + 1) k) as [l Hl]; try lia.
      exists (j0 :: l). simpl. now rewrite Hl.
    + apply first_selected_none with (k := j) in E; [congruence | lia].
Qed.

(** X16. When a slot that is not selected lies before a selected one, and
    the run is entered with the cursor at or before that slot (as the
    first run of a process is, with the cursor at 0), the callback of
    some test is invoked at least twice in every complete concurrent run,
    whatever the schedule and the number of workers. *)
Theorem concurrent_repeats_after_gap {World : Type} (m : MicroTests)
  (c : Catalog World) (cur : Z) (i j : nat)
  (Hsmall : count c < 2 ^ 31)
  (Hcur : 0 <= cur <= Z.of_nat i)
  (Hij : (i < j)%nat) (Hj : Z.of_nat j < count c)
  (Hi : selected m (test c i) = false)
  (Hsel : selected m (test c j) = true) :
  exists j' : nat,
    (i < j' <= j)%nat
    /\ selected m (test c j') = true
    /\ forall (sched : list nat) (w : World) (o : Outcome World) (cur' : Z),
        1 <= thread_number m ->
        _micro_tests_run_multithreaded m c cur sched w = Some (o, cur') ->
        (2 <= count_occ Nat.eq_dec (calls (trace o)) j')%nat.
Proof.
  destruct (first_selected m c (Z.to_nat (count c - Z.of_nat i))
              (Z.to_nat (Z.of_nat i))) as [j' |] eqn:E.
  2: { apply first_selected_none with (k := j) in E; [congruence | lia]. }
  pose proof E as E'.
  apply first_selected_some in E' as (Hj' & Hr & Hmin).
  rewrite Nat2Z.id in Hr, Hmin.
  assert (Hne : j' <> i) by (intros ->; congruence).
  assert (Hle : (j' <= j)%nat).
  { destruct (Nat.le_gt_cases j' j) as [H | H]; trivial.
    rewrite Hmin in Hsel by lia. discriminate. }
  exists j'. split; [lia |]. split; [exact Hj' |].
  intros sched w o cur' Hn Hrun.
  assert (Hentry : 0 <= cur <= count c) by lia.
  destruct (multithreaded_calls m c Hsmall Hentry sched w o cur' Hn Hrun)
    as [Hperm _].
  rewrite (Permutation_count_occ Nat.eq_dec) in Hperm. rewrite Hperm.
  destruct (remaining_suffix m c Hsmall j Hj Hsel _ cur (Z.of_nat i) eq_refl)
    as [l Hl]; try lia.
  rewrite Hl, count_occ_app.
  rewrite (remaining_unfold m c Hsmall (Z.of_nat i)) by lia.
  rewrite E. rewrite count_occ_cons_eq by reflexivity.
  assert (Hin : In j' (remaining m c (Z.of_nat i + 1))).
  { apply (remaining_covers m c Hsmall _ _ j' eq_refl); trivial; lia. }
  apply (count_occ_In Nat.eq_dec) in Hin. lia.
Qed.

Lemma concurrent_repeats_after_gap_witness :
  let m := set_run_suite "base_tests2" (multithreaded_settings 2) in
  count test_c < 2 ^ 31
  /\ 0 <= 0 <= Z.of_nat 1
  /\ selected m (test test_c 1) = false
  /\ selected m (test test_c 2) = true
  /\ exists j' : nat,
      (1 < j' <= 2)%nat
      /\ selected m (test test_c j') = true
      /\ forall (sched : list nat) (w : unit) (o : Outcome unit) (cur' : Z),
          1 <= thread_number m ->
          _micro_tests_run_multithreaded m test_c 0 sched w = Some (o, cur') ->
          (2 <= count_occ Nat.eq_dec (calls (trace o)) j')%nat.
Proof.
  intros m.
  split; [reflexivity |]. split; [simpl; lia |].
  split; [reflexivity | split; [reflexivity |]].
  apply (concurrent_repeats_after_gap m test_c 0 1 2);
    try reflexivity; simpl; lia.
Defined.

(** ** How long a concurrent run takes, and what it returns *)

Section RunLength.

Context {World : Type}.
Variable m : MicroTests.
Variable c : Catalog World.
Hypothesis Hsmall : count c < 2 ^ 31.
Context {cur0 : Z}.

Lemma thread_step_decreases (k : nat) (st st' : Shared World) :
  scheduler_inv m c cur0 st ->
  thread_step m c k st = Some st' ->
  (steps_left m c st' < steps_left m c st)%nat.
Proof.
  intros Hinv H.
  assert (Hwk : exists wk, nth_error (workers st) k = Some wk
                           /\ has_returned wk = false).
  { unfold thread_step in H.
    destruct (nth_error (workers st) k) as [wk |]; [| discriminate].
    exists wk. split; [reflexivity |].
    unfold has_returned. now destruct (w_pc wk). }
  destruct Hwk as (wk & Hk & Hnot).
  destruct (thread_step_progress m c Hsmall k st wk Hinv Hk Hnot)
    as (st1 & Hstep & Hlt).
  rewrite H in Hstep. now injection Hstep as ->.
Qed.

Lemma run_schedule_length (sched : list nat) :
  forall st st',
    scheduler_inv m c cur0 st ->
    run_schedule m c sched st = Some st' ->
    (List.length sched + steps_left m c st' <= steps_left m c st)%nat.
Proof.
  induction sched as [| k sched IH]; intros st st' Hinv H; simpl in H.
  - injection H as <-. simpl. lia.
  - destruct (thread_step m c k st) as [st1 |] eqn:Hstep; [| discriminate].
    pose proof (thread_step_decreases k st st1 Hinv Hstep) as Hlt.
    destruct (thread_step_inv m c Hsmall k st st1 Hinv Hstep) as [Hinv1 _].
    specialize (IH st1 st' Hinv1 H). simpl. lia.
Qed.

Lemma claims_from_length (fuel : nat) :
  forall cur, (List.length (claims_from m c fuel cur) <= fuel)%nat.
Proof.
  induction fuel as [| fuel IH]; intros cur; simpl; [lia |].
  destruct (_micro_tests_get_next_test m c cur) as [[[i |] cur'] |];
    simpl; try lia.
  specialize (IH cur'). lia.
Qed.

Lemma weight_spawn (n : nat) :
  list_sum (map pc_weight (repeat {| w_pc := AtClaim; w_ret := 0 |} n)) = n.
Proof. induction n; simpl; auto. Qed.

Lemma thread_step_cursor (k : nat) (st st' : Shared World) :
  scheduler_inv m c cur0 st ->
  thread_step m c k st = Some st' ->
  micro_tests_current st <= micro_tests_current st'
  <= micro_tests_current st + 1.
Proof.
  intros (Hcur & _) H. unfold thread_step in H.
  destruct (nth_error (workers st) k) as [wk |]; [| discriminate].
  destruct (w_pc wk) as [| i |]; [| | discriminate].
  - destruct (_micro_tests_get_next_test m c (micro_tests_current st))
      as [[[i |] cur'] |] eqn:Hn; [| | discriminate]; injection H as <-; simpl.
    + destruct (get_next_test_found m c Hsmall _ _ _ Hcur Hn) as (_ & -> & _).
      lia.
    + destruct (remaining_none m c _ _ Hn) as [_ ->]. lia.
  - destruct (negb (marker (test c i) =? MARKER)).
    + injection H as <-. simpl. lia.
    + destruct (function_pointer (test c i) (sh_world st)).
      injection H as <-. simpl. lia.
Qed.

Lemma run_schedule_cursor (sched : list nat) :
  forall st st',
    scheduler_inv m c cur0 st ->
    run_schedule m c sched st = Some st' ->
    micro_tests_current st <= micro_tests_current st'
    /\ micro_tests_current st'
       <= micro_tests_current st + Z.of_nat (List.length sched)
    /\ micro_tests_current st' <= count c.
Proof.
  induction sched as [| k sched IH]; intros st st' Hinv H; simpl in H.
  - injection H as <-. destruct Hinv as (Hcur & _). simpl. lia.
  - destruct (thread_step m c k st) as [st1 |] eqn:Hstep; [| discriminate].
    pose proof (thread_step_cursor k st st1 Hinv Hstep) as Hc.
    destruct (thread_step_inv m c Hsmall k st st1 Hinv Hstep) as [Hinv1 _].
    specialize (IH st1 st' Hinv1 H).
    cbn [List.length]. lia.
Qed.

End RunLength.

(** X17. A concurrent run ends: from whatever value in the section the
    cursor has at entry, every schedule the workers can follow has at most
    three steps for every slot of the section plus one step for every
    worker, and there is a schedule under which all workers return and
    the runner returns. *)
Theorem concurrent_run_is_bounded {World : Type} (m : MicroTests)
  (c : Catalog World) (cur : Z) (w : World)
  (Hsmall : count c < 2 ^ 31)
  (Hcur : 0 <= cur <= count c) :
  (forall sched st,
      run_schedule m c sched (start_state m cur w) = Some st ->
      (List.length sched
       <= 3 * Z.to_nat (count c) + Z.to_nat (thread_number m))%nat)
  /\ exists sched o cur',
      _micro_tests_run_multithreaded m c cur sched w = Some (o, cur').
Proof.
  split; [| now apply multithreaded_run_completes].
  intros sched st Hrun.
  pose proof (run_schedule_length m c Hsmall sched _ _
                (start_state_inv m c Hcur w) Hrun) as Hlen.
  assert (Hstart : (steps_left m c (start_state m cur w)
                    <= 3 * Z.to_nat (count c)
                       + Z.to_nat (thread_number m))%nat).
  { unfold steps_left, start_state, spawn.
    cbn [micro_tests_current workers].
    rewrite weight_spawn. unfold remaining.
    pose proof (claims_from_length m c (Z.to_nat (count c - cur)) cur) as Hl.
    lia. }
  lia.
Qed.

Lemma concurrent_run_is_bounded_witness :
  count test_c < 2 ^ 31
  /\ 0 <= 0 <= count test_c
  /\ forall sched st,
      run_schedule (multithreaded_settings 4) test_c sched
        (start_state (multithreaded_settings 4) 0 tt) = Some st ->
      (List.length sched <= 13)%nat.
Proof.
  split; [reflexivity | split; [exact test_c_entry |]].
  apply (concurrent_run_is_bounded (multithreaded_settings 4) test_c 0 tt
           eq_refl test_c_entry).
Defined.

Lemma next_loop_thread_number {World : Type} (m : MicroTests)
  (c : Catalog World) (n : Z) (fuel : nat) :
  forall i cur,
    next_loop (set_thread_number n m) c fuel i cur = next_loop m c fuel i cur.
Proof.
  induction fuel as [| fuel IH]; intros i cur; [reflexivity |].
  rewrite !next_loop_step, IH. reflexivity.
Qed.

Lemma claims_from_thread_number {World : Type} (m : MicroTests)
  (c : Catalog World) (n : Z) (fuel : nat) :
  forall cur,
    claims_from (set_thread_number n m) c fuel cur = claims_from m c fuel cur.
Proof.
  induction fuel as [| fuel IH]; intros cur; simpl; [reflexivity |].
  unfold _micro_tests_get_next_test. rewrite next_loop_thread_number.
  destruct (next_loop m c _ cur cur) as [[[i |] cur'] |]; trivial.
  now rewrite IH.
Qed.

(** X18. With callbacks whose return value does not depend on the world,
    two complete concurrent runs entered with the cursor at the same
    value return the same value and have invoked the same callbacks,
    counted with their repetitions, whatever their schedules and numbers
    of workers. *)
Theorem concurrent_result_schedule_independent {World : Type}
  (m : MicroTests) (c : Catalog World) (cur : Z) (n n' : Z)
  (sched sched' : list nat)
  (w w' : World) (o o' : Outcome World) (cur1 cur1' : Z)
  (Hsmall : count c < 2 ^ 31)
  (Hcur : 0 <= cur <= count c)
  (Hdet : deterministic c)
  (Hn : 1 <= n) (Hn' : 1 <= n')
  (Hrun : _micro_tests_run_multithreaded (set_thread_number n m) c cur
            sched w = Some (o, cur1))
  (Hrun' : _micro_tests_run_multithreaded (set_thread_number n' m) c cur
             sched' w' = Some (o', cur1')) :
  status o = status o'
  /\ Permutation (calls (trace o)) (calls (trace o')).
Proof.
  assert (Hrem : forall k z, remaining (set_thread_number k m) c z
                             = remaining m c z).
  { intros k z. unfold remaining. apply claims_from_thread_number. }
  destruct (multithreaded_calls (set_thread_number n m) c Hsmall Hcur
              sched w o cur1 Hn Hrun) as (P & _ & _).
  destruct (multithreaded_calls (set_thread_number n' m) c Hsmall Hcur
              sched' w' o' cur1' Hn' Hrun') as (P' & _ & _).
  rewrite Hrem in P, P'.
  split.
  - rewrite (multithreaded_status (set_thread_number n m) c Hsmall Hcur w Hdet
               sched w o cur1 Hn Hrun).
    rewrite (multithreaded_status (set_thread_number n' m) c Hsmall Hcur w
               Hdet sched' w' o' cur1' Hn' Hrun').
    now rewrite !Hrem.
  - exact (Permutation_trans P (Permutation_sym P')).
Qed.

Lemma concurrent_result_schedule_independent_witness :
  let m := multithreaded_settings 1 in
  0 <= 0 <= count test_c_failing
  /\ exists o o' cur1 cur1',
      _micro_tests_run_multithreaded (set_thread_number 2 m) test_c_failing 0
        [0; 1; 0; 1; 0; 1; 0; 1; 0; 1]%nat tt = Some (o, cur1)
      /\ _micro_tests_run_multithreaded (set_thread_number 1 m)
           test_c_failing 0 [0; 0; 0; 0; 0; 0; 0; 0; 0]%nat tt
         = Some (o', cur1')
      /\ status o = status o'
      /\ Permutation (calls (trace o)) (calls (trace o')).
Proof.
  intros m. split; [exact test_c_failing_entry |].
  assert (Ho : exists r,
             _micro_tests_run_multithreaded (set_thread_number 2 m)
               test_c_failing 0 [0; 1; 0; 1; 0; 1; 0; 1; 0; 1]%nat tt = Some r)
    by (vm_compute; eexists; reflexivity).
  assert (Ho' : exists r,
             _micro_tests_run_multithreaded (set_thread_number 1 m)
               test_c_failing 0 [0; 0; 0; 0; 0; 0; 0; 0; 0]%nat tt = Some r)
    by (vm_compute; eexists; reflexivity).
  destruct Ho as [[o cur1] E], Ho' as [[o' cur1'] E'].
  exists o, o', cur1, cur1'. split; [exact E | split; [exact E' |]].
  apply (concurrent_result_schedule_independent m test_c_failing 0 2 1
           [0; 1; 0; 1; 0; 1; 0; 1; 0; 1]%nat
           [0; 0; 0; 0; 0; 0; 0; 0; 0]%nat tt tt o o' cur1 cur1'
           test_c_failing_small test_c_failing_entry (deterministic_unit _)
           ltac:(lia) ltac:(lia) E E').
Defined.

Lemma sum_returns_failures {World : Type} (c : Catalog World) (w0 : World)
  (Hdet : deterministic c)
  (Hprotocol : forall i w, fst (function_pointer (test c i) w) = 0
                           \/ fst (function_pointer (test c i) w) = -1)
  (l : list nat) :
  forall w,
    sum_returns c w0 l = - failures (fst (exec_in_order c l w))
    /\ Forall (fun ir => snd ir = 0 \/ snd ir = -1)
         (fst (exec_in_order c l w)).
Proof.
  unfold failures.
  induction l as [| i l IH]; intros w; simpl.
  - split; [reflexivity | constructor].
  - pose proof (Hdet i w0 w) as Hr. pose proof (Hprotocol i w) as Hp.
    destruct (function_pointer (test c i) w) as [r w1]. simpl in Hr, Hp.
    destruct (IH w1) as [Hs Hall].
    destruct (exec_in_order c l w1) as [rs w2]. cbn [fst snd] in *.
    rewrite Hr, Hs. split.
    + destruct Hp as [-> | ->]; cbn [filter snd].
      * change (0 <? 0) with false. lia.
      * change (-1 <? 0) with true. cbn [List.length].
        rewrite Nat2Z.inj_succ. lia.
    + constructor; [exact Hp | exact Hall].
Qed.

(** X19. In the first run of a process, which the cursor enters at 0,
    even where the concurrent runner invokes every test once (no slot
    that is not selected before a selected one), it returns the number of
    failed tests negated: with callbacks that return 0 or -1 whatever the
    world, and fewer than [2 ^ 31] failures, its result is the opposite of
    the result of the sequential runner. *)
Theorem concurrent_returns_negated_count {World : Type} (m : MicroTests)
  (c : Catalog World) (sched : list nat) (w w' : World) (o : Outcome World)
  (cur' : Z)
  (Hsmall : count c < 2 ^ 31)
  (Hgap : gap_free m c)
  (Hdet : deterministic c)
  (Hprotocol : forall i w, fst (function_pointer (test c i) w) = 0
                           \/ fst (function_pointer (test c i) w) = -1)
  (Hfew : failures (fst (exec_in_order c (selected_indices m c) w')) < 2 ^ 31)
  (Hn : 1 <= thread_number m)
  (Hrun : _micro_tests_run_multithreaded m c 0 sched w = Some (o, cur')) :
  status o = - status (_micro_tests_run m c w')
  /\ status (_micro_tests_run m c w')
     = failures (fst (exec_in_order c (selected_indices m c) w')).
Proof.
  pose proof (count_nonneg c) as Hc.
  assert (Hentry : 0 <= 0 <= count c) by lia.
  destruct (sum_returns_failures c w Hdet Hprotocol (selected_indices m c) w')
    as [Hsum Hall].
  pose proof (sequential_status_protocol m c w' Hall Hfew) as Hseq.
  rewrite Hseq. split; [| reflexivity].
  rewrite (multithreaded_status m c Hsmall Hentry w Hdet sched w o cur'
             Hn Hrun).
  rewrite (remaining_gap_free m c Hsmall Hgap _ 0 eq_refl) by lia.
  rewrite Z.sub_0_r. change (Z.to_nat 0) with 0%nat.
  fold (indices c). fold (selected_indices m c). rewrite Hsum.
  set (f := failures (fst (exec_in_order c (selected_indices m c) w'))) in *.
  assert (0 <= f) by (unfold f, failures; lia).
  change (2 ^ 31) with 2147483648 in Hfew.
  rewrite wrap_long_small
    by (unfold in_long; change (2 ^ 63) with 9223372036854775808; lia).
  apply wrap_int_small. unfold in_int.
  change (2 ^ 31) with 2147483648. lia.
Qed.

Lemma concurrent_returns_negated_count_witness :
  let m := multithreaded_settings 1 in
  exists o cur',
    _micro_tests_run_multithreaded m test_c_failing 0
      [0; 0; 0; 0; 0; 0; 0; 0; 0]%nat tt = Some (o, cur')
    /\ status o = - status (_micro_tests_run m test_c_failing tt)
    /\ status (_micro_tests_run m test_c_failing tt) = 1.
Proof.
  intros m.
  assert (Ho : exists r,
             _micro_tests_run_multithreaded m test_c_failing 0
               [0; 0; 0; 0; 0; 0; 0; 0; 0]%nat tt = Some r)
    by (vm_compute; eexists; reflexivity).
  destruct Ho as [[o cur'] E]. exists o, cur'. split; [exact E |].
  assert (Hgap : gap_free m test_c_failing).
  { intros i j Hij Hj _. change (count test_c_failing) with 4 in Hj.
    destruct i as [| [| [| [| i]]]]; try reflexivity; lia. }
  assert (Hprot : forall i (w : unit),
             fst (function_pointer (test test_c_failing i) w) = 0
             \/ fst (function_pointer (test test_c_failing i) w) = -1).
  { intros i w. destruct i as [| [| [| [| [| i]]]]]; simpl; auto. }
  destruct (concurrent_returns_negated_count m test_c_failing _ tt tt o cur'
              test_c_failing_small Hgap (deterministic_unit _) Hprot
              eq_refl ltac:(simpl; lia) E) as [H1 H2].
  split; [exact H1 | rewrite H2; reflexivity].
Defined.

(** ** The program as a whole, and what the workers never do *)

(** X20. Run without [--help], [--list] and [--multithreaded], on
    arguments that parse, the program invokes the selected tests once each
    in index order and exits with the value of the sequential runner,
    whatever the schedule it is given, and leaves the cursor alone: the
    banner and the debug line add output only. *)
Theorem program_runs_sequentially {World : Type} (argv : list string)
  (c : Catalog World) (cur : Z) (sched : list nat) (w : World)
  (m : MicroTests) (out : list event)
  (Hparse : micro_tests_parse_args argv = (0, m, out))
  (Hhelp : print_help m = false)
  (Hlist : show_list m = false)
  (Hmt : run_multithreaded m = false) :
  exists o,
    micro_tests_run argv c cur sched w = Some (o, cur)
    /\ status o = status (_micro_tests_run m c w)
    /\ world o = world (_micro_tests_run m c w)
    /\ calls (trace o) = selected_indices m c
    /\ exists pre, trace o = pre ++ trace (_micro_tests_run m c w)
                   /\ calls pre = []
                   /\ (print_banner m = false -> debug m = false -> pre = []).
Proof.
  destruct (parse_args_result _ _ _ _ Hparse) as [_ [[_ ->] | [Hr _]]];
    [| discriminate Hr].
  unfold micro_tests_run. rewrite Hparse, Hhelp, Hlist, Hmt.
  cbv beta iota zeta. change (0 <? 0) with false. cbn [andb].
  match goal with
  | |- context [after ?p _] => set (pre := p)
  end.
  assert (Hpre : calls pre = []).
  { subst pre. rewrite !calls_app.
    now destruct (print_banner m), (debug m). }
  exists (after pre (_micro_tests_run m c w)).
  split; [reflexivity |]. unfold after. cbn [status trace world].
  split; [reflexivity |]. split; [reflexivity |].
  split.
  - rewrite calls_app, Hpre. apply micro_tests_run_calls.
  - exists pre. split; [reflexivity |]. split; [exact Hpre |].
    intros Hb Hd. subst pre. now rewrite Hb, Hd.
Qed.

Lemma program_runs_sequentially_witness :
  micro_tests_parse_args
    ["./test"; "--no-banner"; "--suite"; "base_tests"]%string
  = (0, set_run_suite "base_tests" (set_print_banner false default_settings),
     [])
  /\ exists o,
      micro_tests_run ["./test"; "--no-banner"; "--suite"; "base_tests"]%string
        test_c 0 [] tt = Some (o, 0)
      /\ status o = 0
      /\ calls (trace o) = [0; 1]%nat.
Proof.
  split; [reflexivity |].
  destruct (program_runs_sequentially
              ["./test"; "--no-banner"; "--suite"; "base_tests"]%string
              test_c 0 [] tt
              (set_run_suite "base_tests"
                 (set_print_banner false default_settings)) []
              eq_refl eq_refl eq_refl eq_refl)
    as (o & Hrun & Hstatus & _ & Hcalls & _).
  exists o. split; [exact Hrun |].
  split; [rewrite Hstatus | rewrite Hcalls]; reflexivity.
Defined.

Lemma run_schedule_app {World : Type} (m : MicroTests) (c : Catalog World)
  (s1 : list nat) :
  forall s2 st,
    run_schedule m c (s1 ++ s2) st
    = match run_schedule m c s1 st with
      | Some st1 => run_schedule m c s2 st1
      | None => None
      end.
Proof.
  induction s1 as [| k s1 IH]; intros s2 st; simpl; [reflexivity |].
  destruct (thread_step m c k st); [apply IH | reflexivity].
Qed.

(** X21. In no state the workers can reach, from whatever value in the
    section the cursor has at entry, does a worker hold a record without
    the marker: the test of the marker that [_micro_tests_thread] makes on
    the record it has been given never fails, and no worker returns -1
    through it.  The cursor stays between 0 and the number of slots. *)
Theorem workers_hold_valid_records {World : Type} (m : MicroTests)
  (c : Catalog World) (cur : Z) (sched : list nat) (w : World)
  (st : Shared World)
  (Hsmall : count c < 2 ^ 31)
  (Hcur : 0 <= cur <= count c)
  (Hrun : run_schedule m c sched (start_state m cur w) = Some st) :
  (forall wk i,
      In wk (workers st) -> w_pc wk = AtExec i ->
      marker (test c i) = MARKER /\ selected m (test c i) = true)
  /\ 0 <= micro_tests_current st <= count c
  /\ List.length (workers st) = Z.to_nat (thread_number m).
Proof.
  destruct (run_schedule_inv m c Hsmall sched _ _
              (start_state_inv m c Hcur w) Hrun)
    as [(Hc & Hsel & _ & _) Hlen].
  split; [| split; [exact Hc |]].
  - intros wk i Hin Hpc. pose proof (Hsel wk i Hin Hpc) as H.
    split; [now apply (selected_valid m) | exact H].
  - rewrite Hlen. unfold start_state, spawn. simpl. apply repeat_length.
Qed.

Lemma workers_hold_valid_records_witness :
  count test_c_padded < 2 ^ 31
  /\ 0 <= 0 <= count test_c_padded
  /\ exists st,
      run_schedule (multithreaded_settings 2) test_c_padded [0; 1]%nat
        (start_state (multithreaded_settings 2) 0 tt) = Some st
      /\ 0 <= micro_tests_current st <= count test_c_padded.
Proof.
  assert (Hentry : 0 <= 0 <= count test_c_padded) by now vm_compute.
  split; [reflexivity | split; [exact Hentry |]].
  assert (Hst : exists st,
             run_schedule (multithreaded_settings 2) test_c_padded [0; 1]%nat
               (start_state (multithreaded_settings 2) 0 tt) = Some st)
    by (vm_compute; eexists; reflexivity).
  destruct Hst as [st E]. exists st. split; [exact E |].
  apply (workers_hold_valid_records (multithreaded_settings 2) test_c_padded
           0 [0; 1]%nat tt st eq_refl Hentry E).
Defined.

(** X22. The cursor never moves backward: from whatever value in the
    section it has at entry, along every schedule it grows, by at most
    one for each step taken, and it never passes the number of slots of
    the section. *)
Theorem cursor_never_moves_backward {World : Type} (m : MicroTests)
  (c : Catalog World) (cur : Z) (s1 s2 : list nat) (w : World)
  (st1 st2 : Shared World)
  (Hsmall : count c < 2 ^ 31)
  (Hcur : 0 <= cur <= count c)
  (Hrun1 : run_schedule m c s1 (start_state m cur w) = Some st1)
  (Hrun2 : run_schedule m c s2 st1 = Some st2) :
  cur <= micro_tests_current st1
  /\ micro_tests_current st1 <= micro_tests_current st2
  /\ micro_tests_current st2
     <= micro_tests_current st1 + Z.of_nat (List.length s2)
  /\ micro_tests_current st2 <= count c.
Proof.
  pose proof (start_state_inv m c Hcur w) as Hinv0.
  destruct (run_schedule_inv m c Hsmall s1 _ _ Hinv0 Hrun1) as [Hinv1 _].
  destruct (run_schedule_cursor m c Hsmall s1 _ _ Hinv0 Hrun1) as (H0 & _).
  destruct (run_schedule_cursor m c Hsmall s2 _ _ Hinv1 Hrun2)
    as (H1 & H2 & H3).
  simpl in H0. tauto.
Qed.

Lemma cursor_never_moves_backward_witness :
  count test_c < 2 ^ 31
  /\ 0 <= 0 <= count test_c
  /\ exists st1 st2,
      run_schedule (multithreaded_settings 2) test_c [0; 1]%nat
        (start_state (multithreaded_settings 2) 0 tt) = Some st1
      /\ run_schedule (multithreaded_settings 2) test_c [0; 1; 0]%nat st1
         = Some st2
      /\ micro_tests_current st1 <= micro_tests_current st2.
Proof.
  split; [reflexivity | split; [exact test_c_entry |]].
  assert (H1 : exists st1,
             run_schedule (multithreaded_settings 2) test_c [0; 1]%nat
               (start_state (multithreaded_settings 2) 0 tt) = Some st1)
    by (vm_compute; eexists; reflexivity).
  destruct H1 as [st1 E1].
  assert (H2 : exists st2,
             run_schedule (multithreaded_settings 2) test_c [0; 1; 0]%nat st1
             = Some st2).
  { assert (E : exists st2,
               run_schedule (multithreaded_settings 2) test_c
                 ([0; 1] ++ [0; 1; 0])%nat
                 (start_state (multithreaded_settings 2) 0 tt) = Some st2)
      by (vm_compute; eexists; reflexivity).
    destruct E as [st2 E]. rewrite run_schedule_app, E1 in E. now exists st2. }
  destruct H2 as [st2 E2].
  exists st1, st2. split; [exact E1 | split; [exact E2 |]].
  apply (cursor_never_moves_backward (multithreaded_settings 2) test_c 0
           [0; 1]%nat [0; 1; 0]%nat tt st1 st2 eq_refl test_c_entry E1 E2).
Defined.

(** ** A second concurrent run in the same process *)

Section Idle.

Context {World : Type}.
Variable m : MicroTests.
Variable c : Catalog World.
Hypothesis Hsmall : count c < 2 ^ 31.
Context {cur0 : Z}.

(** The claim function finds nothing from the cursor at entry. *)
Hypothesis Hnone : remaining m c cur0 = [].

Lemma inv_idle (st : Shared World) :
  scheduler_inv m c cur0 st ->
  calls (sh_trace st) = []
  /\ pending (workers st) = []
  /\ remaining m c (micro_tests_current st) = [].
Proof.
  intros (_ & _ & _ & Hperm). rewrite Hnone in Hperm.
  apply Permutation_sym, Permutation_nil in Hperm.
  apply app_eq_nil in Hperm as [H1 H2].
  apply app_eq_nil in H2 as [H2 H3]. auto.
Qed.

Lemma thread_step_idle (k : nat) (st st' : Shared World) :
  scheduler_inv m c cur0 st ->
  thread_step m c k st = Some st' ->
  sh_world st' = sh_world st
  /\ sum_ret (workers st') = sum_ret (workers st)
  /\ micro_tests_current st' = micro_tests_current st.
Proof.
  intros Hinv H.
  destruct (inv_idle st Hinv) as (_ & Hpend & Hrem).
  destruct Hinv as (Hcur & _).
  unfold thread_step in H.
  destruct (nth_error (workers st) k) as [wk |] eqn:Hk; [| discriminate].
  destruct (w_pc wk) as [| i |] eqn:Hpc; [| | discriminate].
  - destruct (_micro_tests_get_next_test m c (micro_tests_current st))
      as [[[i |] cur'] |] eqn:Hn; [| | discriminate].
    + rewrite (remaining_found m c Hsmall _ _ _ Hcur Hn) in Hrem.
      discriminate Hrem.
    + destruct (remaining_none m c _ _ Hn) as [_ ->].
      injection H as <-. simpl.
      match goal with
      | |- context [set_nth k ?x _] =>
          destruct (set_nth_split (workers st) k x wk Hk)
            as (l1 & l2 & E1 & E2)
      end.
      rewrite E2, E1, !sum_ret_app. simpl. auto.
  - exfalso.
    destruct (set_nth_split (workers st) k wk wk Hk) as (l1 & l2 & E1 & _).
    rewrite E1, pending_app, pending_cons, Hpc in Hpend.
    apply app_eq_nil in Hpend as [_ Hp]. discriminate Hp.
Qed.

Lemma run_schedule_idle (sched : list nat) :
  forall st st',
    scheduler_inv m c cur0 st ->
    run_schedule m c sched st = Some st' ->
    sh_world st' = sh_world st
    /\ sum_ret (workers st') = sum_ret (workers st)
    /\ micro_tests_current st' = micro_tests_current st
    /\ calls (sh_trace st') = [].
Proof.
  induction sched as [| k sched IH]; intros st st' Hinv H; simpl in H.
  - injection H as <-. destruct (inv_idle st Hinv) as (Hc & _). auto.
  - destruct (thread_step m c k st) as [st1 |] eqn:Hstep; [| discriminate].
    destruct (thread_step_idle k st st1 Hinv Hstep) as (E1 & E2 & E3).
    destruct (thread_step_inv m c Hsmall k st st1 Hinv Hstep) as [Hinv1 _].
    destruct (IH st1 st' Hinv1 H) as (F1 & F2 & F3 & F4).
    repeat split; congruence.
Qed.

End Idle.

(** X23. Nothing sets the cursor back: a complete concurrent run entered
    with the cursor at [cur] leaves it at a value [cur'] not below [cur]
    from which the claim function finds nothing; so a second concurrent
    run in the same process, with the same settings, entered with the
    cursor at [cur'], invokes no callback under any schedule, returns 0,
    and leaves the world and the cursor as they were. *)
Theorem second_concurrent_run_invokes_nothing {World : Type}
  (m : MicroTests) (c : Catalog World) (cur : Z) (sched : list nat)
  (w : World) (o : Outcome World) (cur' : Z)
  (Hsmall : count c < 2 ^ 31)
  (Hcur : 0 <= cur <= count c)
  (Hn : 1 <= thread_number m)
  (Hrun : _micro_tests_run_multithreaded m c cur sched w = Some (o, cur')) :
  cur <= cur' <= count c
  /\ _micro_tests_get_next_test m c cur' = Some (None, cur')
  /\ forall (sched2 : list nat) (w2 : World) (o2 : Outcome World) (cur2 : Z),
      _micro_tests_run_multithreaded m c cur' sched2 w2 = Some (o2, cur2) ->
      calls (trace o2) = []
      /\ status o2 = 0
      /\ world o2 = w2
      /\ cur2 = cur'.
Proof.
  destruct (multithreaded_calls m c Hsmall Hcur sched w o cur' Hn Hrun)
    as (_ & Hcur' & Hnone).
  assert (Hge : cur <= cur').
  { unfold _micro_tests_run_multithreaded in Hrun.
    destruct (run_schedule m c sched (start_state m cur w)) as [st |] eqn:E;
      [| discriminate].
    destruct (forallb has_returned (workers st)); [| discriminate].
    injection Hrun as _ <-.
    destruct (run_schedule_cursor m c Hsmall sched _ _
                (start_state_inv m c Hcur w) E) as (H & _).
    exact H. }
  split; [lia |]. split.
  - destruct (get_next_test_total m c Hsmall cur' Hcur') as [[[i |] z] E].
    + rewrite (remaining_found m c Hsmall _ _ _ Hcur' E) in Hnone.
      discriminate Hnone.
    + destruct (remaining_none m c _ _ E) as [_ ->]. exact E.
  - intros sched2 w2 o2 cur2 Hrun2.
    unfold _micro_tests_run_multithreaded in Hrun2.
    destruct (run_schedule m c sched2 (start_state m cur' w2)) as [st |] eqn:E;
      [| discriminate].
    destruct (forallb has_returned (workers st)); [| discriminate].
    injection Hrun2 as <- <-.
    destruct (run_schedule_idle m c Hsmall Hnone sched2 _ _
                (start_state_inv m c Hcur' w2) E) as (E1 & E2 & E3 & E4).
    cbn [status trace world].
    split; [| split; [| split; [exact E1 | exact E3]]].
    + rewrite calls_app, E4. now destruct (quiet m).
    + rewrite join_all_sum, E2. unfold start_state, spawn.
      cbn [workers]. now rewrite sum_ret_spawn.
Qed.

Lemma second_concurrent_run_invokes_nothing_witness :
  let m := multithreaded_settings 1 in
  count test_c < 2 ^ 31
  /\ 0 <= 0 <= count test_c
  /\ 1 <= thread_number m
  /\ exists o cur',
      _micro_tests_run_multithreaded m test_c 0 [0; 0; 0; 0; 0; 0; 0]%nat tt
      = Some (o, cur')
      /\ calls (trace o) = [0; 1; 2]%nat
      /\ cur' = 3
      /\ forall sched2 w2 o2 cur2,
          _micro_tests_run_multithreaded m test_c cur' sched2 w2
          = Some (o2, cur2) ->
          calls (trace o2) = [] /\ status o2 = 0 /\ world o2 = w2
          /\ cur2 = cur'.
Proof.
  intros m.
  assert (H1 : count test_c < 2 ^ 31) by reflexivity.
  assert (H3 : 1 <= thread_number m) by (simpl; lia).
  split; [exact H1 | split; [exact test_c_entry | split; [exact H3 |]]].
  assert (Ho : exists o cur',
             _micro_tests_run_multithreaded m test_c 0
               [0; 0; 0; 0; 0; 0; 0]%nat tt = Some (o, cur')
             /\ calls (trace o) = [0; 1; 2]%nat /\ cur' = 3)
    by (vm_compute; eexists; eexists; repeat split).
  destruct Ho as (o & cur' & E & Hc & Hcur').
  exists o, cur'. split; [exact E | split; [exact Hc | split; [exact Hcur' |]]].
  apply (second_concurrent_run_invokes_nothing m test_c 0
           [0; 0; 0; 0; 0; 0; 0]%nat tt o cur' H1 test_c_entry H3 E).
Defined.
